(** * translate_po.py: classifier, entry scanner and catalog merge

    A shallow embedding of [src/translate_po.py].  Python [str] values are
    sequences of Unicode code points, so a string is a [list N]; the file
    contents are the decoded texts that [f.read()] returns and [f.write]
    receives, and [translate_po_file_io] adds what text mode does to the
    line endings.  Code that can raise runs in an error monad, the mutable
    counter [current_count] and the requests sent to the translation
    service are threaded through an explicit run state. *)

From Stdlib Require Import NArith Ascii String.
From stdpp Require Import base option list gmap.

Local Open Scope N_scope.

(** ** Python strings *)

Abbreviation str := (list N).

(** An ASCII literal as a Python string. *)
Definition lit (s : string) : str :=
  map N_of_ascii (list_ascii_of_string s).

Definition dq : N := 34.        (* the double quote *)
Definition sq : N := 39.        (* the single quote *)
Definition LF : N := 10.        (* what the Python literal '\n' denotes *)
Definition backslash : N := 92.
Definition space : N := 32.

Definition str_eqb (a b : str) : bool := bool_decide (a = b).

(** [s.startswith(p)]; on success the rest of [s] is returned. *)
Fixpoint strip_prefix (p s : str) : option str :=
  match p, s with
  | [], _ => Some s
  | _ :: _, [] => None
  | a :: p', b :: s' => if N.eqb a b then strip_prefix p' s' else None
  end.

Definition startswith (p s : str) : bool :=
  match strip_prefix p s with Some _ => true | None => false end.

(** [sub in s] for strings: [sub] occurs somewhere in [s]. *)
Fixpoint str_in (sub s : str) : bool :=
  startswith sub s ||
  match s with
  | [] => false
  | _ :: s' => str_in sub s'
  end.

(** [c in chars] for a one-character string [c]. *)
Definition char_in (c : N) (chars : str) : bool :=
  existsb (N.eqb c) chars.

(** [s.replace(old, new)]: every occurrence of [old], found from the left
    and not overlapping, is replaced.  [skip] counts the characters of an
    occurrence that are still to be passed over. *)
Fixpoint replace_from (skip : nat) (old new s : str) : str :=
  match s with
  | [] => []
  | c :: s' =>
      match skip with
      | S k => replace_from k old new s'
      | O => if startswith old s
             then new ++ replace_from (length old - 1) old new s'
             else c :: replace_from 0 old new s'
      end
  end.

Definition replace (old new s : str) : str :=
  match old with
  | [] => new ++ flat_map (fun c => c :: new) s
  | _ :: _ => replace_from 0 old new s
  end.

(** [str.isspace] for one character: the white space table of CPython. *)
Definition isspace (c : N) : bool :=
  ((9 <=? c) && (c <=? 13)) || ((28 <=? c) && (c <=? 32))
  || (c =? 133) || (c =? 160) || (c =? 5760)
  || ((8192 <=? c) && (c <=? 8202))
  || (c =? 8232) || (c =? 8233) || (c =? 8239) || (c =? 8287)
  || (c =? 12288).

Fixpoint lstrip (s : str) : str :=
  match s with
  | [] => []
  | c :: s' => if isspace c then lstrip s' else s
  end.

Definition rstrip (s : str) : str := rev (lstrip (rev s)).

(** [s.strip()] *)
Definition strip (s : str) : str := rstrip (lstrip s).

(** ** Exceptions and the error monad *)

Inductive exn : Type :=
  | NameError (name : str)
  | FileNotFoundError.

Inductive result (A : Type) : Type :=
  | Ok (a : A)
  | Raise (e : exn).
Arguments Ok {A} a.
Arguments Raise {A} e.

#[export] Instance result_ret : MRet result := fun _ a => Ok a.
#[export] Instance result_bind : MBind result := fun _ _ k r =>
  match r with
  | Ok a => k a
  | Raise e => Raise e
  end.

(** ** Name resolution

    Line 110 of the source is the expression statement
    [包含HTML/XML标签的不翻译]: the comment marker is missing, so Python reads a
    division of two names.  Neither is a local of [should_translate]; each
    is looked up among the module's globals and then among the builtins. *)

Definition module_globals : list str :=
  map lit
    [ "__name__"; "__doc__"; "__package__"; "__loader__"; "__spec__";
      "__file__"; "__builtins__"; "__cached__"; "__annotations__";
      "re"; "Translator"; "time"; "os"; "argparse"; "glob";
      "find_pot_files"; "should_translate"; "translate_po_file"; "main" ]%string.

Definition builtin_names : list str :=
  map lit
    [ "ArithmeticError"; "AssertionError"; "AttributeError"; "BaseException";
      "BaseExceptionGroup"; "EncodingWarning"; "ExceptionGroup";
      "BlockingIOError"; "BrokenPipeError"; "BufferError"; "BytesWarning";
      "ChildProcessError"; "ConnectionAbortedError"; "ConnectionError";
      "ConnectionRefusedError"; "ConnectionResetError"; "DeprecationWarning";
      "EOFError"; "Ellipsis"; "EnvironmentError"; "Exception"; "False";
      "FileExistsError"; "FileNotFoundError"; "FloatingPointError";
      "FutureWarning"; "GeneratorExit"; "IOError"; "ImportError";
      "ImportWarning"; "IndentationError"; "IndexError"; "InterruptedError";
      "IsADirectoryError"; "KeyError"; "KeyboardInterrupt"; "LookupError";
      "MemoryError"; "ModuleNotFoundError"; "NameError"; "None";
      "NotADirectoryError"; "NotImplemented"; "NotImplementedError";
      "OSError"; "OverflowError"; "PendingDeprecationWarning";
      "PermissionError"; "ProcessLookupError"; "RecursionError";
      "ReferenceError"; "ResourceWarning"; "RuntimeError"; "RuntimeWarning";
      "StopAsyncIteration"; "StopIteration"; "SyntaxError"; "SyntaxWarning";
      "SystemError"; "SystemExit"; "TabError"; "TimeoutError"; "True";
      "TypeError"; "UnboundLocalError"; "UnicodeDecodeError";
      "UnicodeEncodeError"; "UnicodeError"; "UnicodeTranslateError";
      "UnicodeWarning"; "UserWarning"; "ValueError"; "Warning";
      "ZeroDivisionError"; "__build_class__"; "__debug__"; "__import__";
      "abs"; "aiter"; "all"; "anext"; "any"; "ascii"; "bin"; "bool";
      "breakpoint"; "bytearray"; "bytes"; "callable"; "chr"; "classmethod";
      "compile"; "complex"; "copyright"; "credits"; "delattr"; "dict"; "dir";
      "divmod"; "enumerate"; "eval"; "exec"; "exit"; "filter"; "float";
      "format"; "frozenset"; "getattr"; "globals"; "hasattr"; "hash"; "help";
      "hex"; "id"; "input"; "int"; "isinstance"; "issubclass"; "iter"; "len";
      "license"; "list"; "locals"; "map"; "max"; "memoryview"; "min"; "next";
      "object"; "oct"; "open"; "ord"; "pow"; "print"; "property"; "quit";
      "range"; "repr"; "reversed"; "round"; "set"; "setattr"; "slice";
      "sorted"; "staticmethod"; "str"; "sum"; "super"; "tuple"; "type";
      "vars"; "zip" ]%string.

(** Loading a global name: it succeeds when the name is bound, and raises
    [NameError] otherwise. *)
Definition load_global (name : str) : result unit :=
  if existsb (str_eqb name) (module_globals ++ builtin_names)
  then Ok tt
  else Raise (NameError name).

(** The two names of line 110. *)
Definition name_110_left : str :=          (* 包含HTML *)
  [0x5305; 0x542b] ++ lit "HTML".
Definition name_110_right : str :=         (* XML标签的不翻译 *)
  lit "XML" ++ [0x6807; 0x7b7e; 0x7684; 0x4e0d; 0x7ffb; 0x8bd1].

(** The statement of line 110: both operands are loaded, left one first;
    the quotient itself is discarded. *)
Definition stmt_110 : result unit :=
  _ ← load_global name_110_left;
  _ ← load_global name_110_right;
  Ok tt.

(** ** The entry classifier *)

Definition code_signs : list str :=
  map lit [ "("; ")"; "_"; "{"; "}"; "+"; "="; "["; "]" ]%string.

Definition html_signs : list str :=
  map lit [ "<"; ">"; "/"; "</"; "/>"; "style="; "class=" ]%string.

(** The characters of the literal ['.,:-_/\\'] of line 117. *)
Definition symbol_chars : str := lit ".,:-_/" ++ [backslash].

Section Classifier.

(** [str.isdigit] for one character.  Python decides it from its Unicode
    database, which is not part of this program: it is a parameter. *)
Variable isdigit : N -> bool.

Definition numeric_or_symbol (c : N) : bool :=
  isdigit c || char_in c symbol_chars.

(** [should_translate], lines 90-120. *)
Definition should_translate (text : str) : result bool :=
  match text with
  | [] => Ok false
  | _ :: _ =>
      if existsb (fun code_sign => str_in code_sign text) code_signs
      then Ok false
      else
        _ ← stmt_110;
        if existsb (fun html_sign => str_in html_sign text) html_signs
        then Ok false
        else if forallb numeric_or_symbol (strip text)
             then Ok false
             else Ok true
  end.

End Classifier.

(** ** The entry pattern

    [pattern = r'(msgid Q)(.*?)(Q)\n(msgstr Q)(.*?)(Q)'], where Q stands
    for the double quote, used with [re.DOTALL], so [.] matches every
    character, the line feed included.  Groups 1, 3, 4 and 6 are fixed
    texts; a match is known by its groups 2 and 5.  The pattern of line
    141 is the same one with fewer groups: its groups 1 and 2 are the
    groups 2 and 5 here. *)

Record re_match : Type := MkMatch {
  english_text : str;             (* match.group(2) *)
  existing_translation : str      (* match.group(5) *)
}.

Definition msgid_open : str := lit "msgid " ++ [dq].        (* group 1 *)
Definition msgstr_open : str := lit "msgstr " ++ [dq].      (* group 4 *)

(** What stands between group 2 and group 5: [(Q)\n(msgstr Q)]. *)
Definition pair_middle : str := [dq; LF] ++ msgstr_open.

(** The text [msgid Q e Q], a line feed, [msgstr Q t Q], without the
    blanks around [e] and [t]. *)
Definition entry_text (e t : str) : str :=
  msgid_open ++ e ++ pair_middle ++ t ++ [dq].

(** [match.group(0)] *)
Definition group0 (m : re_match) : str :=
  entry_text (english_text m) (existing_translation m).

(** [(.*?)(Q)] tried at the head of [s]: the lazy group takes as few
    characters as it can.  Returns the group and what follows the quote. *)
Fixpoint lazy_to_quote (s : str) : option (str * str) :=
  match s with
  | [] => None
  | c :: s' =>
      if N.eqb c dq then Some ([], s')
      else '(g, rest) ← lazy_to_quote s'; Some (c :: g, rest)
  end.

(** [(.*?)(Q)\n(msgstr Q)(.*?)(Q)] tried at the head of [s], by
    backtracking: group 2 grows one character at a time until the rest of
    the pattern matches.  Returns groups 2 and 5 and what follows. *)
Fixpoint lazy_pair (s : str) : option (str * str * str) :=
  match strip_prefix pair_middle s ≫= lazy_to_quote with
  | Some (g5, rest) => Some ([], g5, rest)
  | None =>
      match s with
      | [] => None
      | c :: s' => '(g2, g5, rest) ← lazy_pair s'; Some (c :: g2, g5, rest)
      end
  end.

(** The whole pattern tried at the head of [s]. *)
Definition match_at (s : str) : option (re_match * str) :=
  '(g2, g5, rest) ← strip_prefix msgid_open s ≫= lazy_pair;
  Some (MkMatch g2 g5, rest).

(** The scan that [re.finditer] and [re.sub] share: matches are looked for
    from the left and do not overlap; a character at which no match starts
    is passed over. *)
Inductive token : Type :=
  | Plain (c : N)
  | Entry (m : re_match).

Fixpoint scan_from (skip : nat) (s : str) : list token :=
  match s with
  | [] => []
  | c :: s' =>
      match skip with
      | S k => scan_from k s'
      | O =>
          match match_at s with
          | Some (m, _) => Entry m :: scan_from (length (group0 m) - 1) s'
          | None => Plain c :: scan_from 0 s'
          end
      end
  end.

Definition scan (s : str) : list token := scan_from 0 s.

Definition entries (toks : list token) : list re_match :=
  omap (fun t => match t with Entry m => Some m | Plain _ => None end) toks.

(** [re.finditer(pattern, s, re.DOTALL)] *)
Definition finditer (s : str) : list re_match := entries (scan s).

(** [re.sub(pattern, repl, s, flags=re.DOTALL)] with a function [repl]
    that may raise and that works on a state. *)
Fixpoint sub_tokens {S : Type} (repl : re_match -> S -> result (str * S))
    (toks : list token) (st : S) : result (str * S) :=
  match toks with
  | [] => Ok ([], st)
  | Plain c :: toks' =>
      '(out, st') ← sub_tokens repl toks' st; Ok (c :: out, st')
  | Entry m :: toks' =>
      '(r, st1) ← repl m st;
      '(out, st2) ← sub_tokens repl toks' st1;
      Ok (r ++ out, st2)
  end.

Definition re_sub {S : Type} (repl : re_match -> S -> result (str * S))
    (s : str) (st : S) : result (str * S) :=
  sub_tokens repl (scan s) st.

(** ** The existing translations, lines 135-144 *)

(** The body of the loop of lines 142-144. *)
Definition remember (d : gmap str str) (pair : re_match) : gmap str str :=
  match english_text pair, existing_translation pair with
  | _ :: _, _ :: _ => <[english_text pair := existing_translation pair]> d
  | _, _ => d
  end.

(** The loop of lines 141-144 over the pairs of the existing catalog. *)
Definition load_pairs (existing_content : str) : gmap str str :=
  foldl remember ∅ (finditer existing_content).

(** Lines 135-145: [output_file] is the text of the output file, [None]
    when the file does not exist. *)
Definition load_existing (output_file : option str) : gmap str str :=
  match output_file with
  | Some existing_content => load_pairs existing_content
  | None => ∅
  end.

(** ** The translation of one entry *)

(** What the translation service does with a request. *)
Inductive reply : Type :=
  | Translated (text : str)
  | Failed.

(** [current_count], and the texts sent to the service so far. *)
Record run_state : Type := MkState {
  current_count : nat;
  requests : list str
}.

(** Lines 183-187. *)
Definition sanitize (chinese_text : str) : str :=
  let chinese_text := replace [0x201c] [dq] chinese_text in
  let chinese_text := replace [0x201d] [dq] chinese_text in
  let chinese_text := replace [0x2018] [sq] chinese_text in
  let chinese_text := replace [0x2019] [sq] chinese_text in
  let chinese_text := replace (backslash :: lit " n") [LF] chinese_text in
  replace [space; LF] [LF] chinese_text.

(** The header patch of lines 215-219. *)
Definition header_marker : str :=
  [dq] ++ lit "Project-Id-Version: Odoo Server".

Definition header_replacement : str :=
  [dq] ++ lit "Project-Id-Version: Odoo Server" ++ [LF; dq]
  ++ [dq] ++ lit "Language: zh_CN" ++ [backslash] ++ lit "n" ++ [dq].

Definition header_patch (translated_content : str) : str :=
  replace header_marker header_replacement translated_content.

(** What a run leaves behind: the text written to the output file and the
    numbers of the final statistics. *)
Record report : Type := MkReport {
  written : str;
  total_untranslated : nat;
  translated : nat;
  service_requests : list str
}.

Section Merge.

Variable isdigit : N -> bool.

(** The translation service: its answer to a request may depend on how
    many requests came before. *)
Variable translate : nat -> str -> reply.

(** The [try] statement of lines 178-199.  Every exception of the
    service is caught. *)
Definition try_translate (m : re_match) (st : run_state) : str * run_state :=
  let sent := requests st ++ [english_text m] in
  match translate (length (requests st)) (english_text m) with
  | Translated chinese_text =>
      let chinese_text := sanitize chinese_text in
      (entry_text (english_text m) chinese_text,
       MkState (S (current_count st)) sent)
  | Failed => (group0 m, MkState (current_count st) sent)
  end.

(** [translate_match], lines 157-199. *)
Definition translate_match (existing_translations : gmap str str)
    (m : re_match) (st : run_state) : result (str * run_state) :=
  match english_text m with
  | [] => Ok (group0 m, st)
  | _ :: _ =>
      match existing_translations !! english_text m with
      | Some cached => Ok (entry_text (english_text m) cached, st)
      | None =>
          match existing_translation m with
          | _ :: _ => Ok (group0 m, st)
          | [] =>
              b ← should_translate isdigit (english_text m);
              if negb b then Ok (group0 m, st)
              else Ok (try_translate m st)
          end
      end
  end.

(** The sum of lines 203-206. *)
Fixpoint count_untranslated (existing_translations : gmap str str)
    (matches : list re_match) : result nat :=
  match matches with
  | [] => Ok O
  | m :: matches' =>
      b ← should_translate isdigit (english_text m);
      let counted :=
        b && negb (bool_decide (existing_translation m ≠ []))
          && negb (bool_decide (is_Some (existing_translations !! english_text m))) in
      n ← count_untranslated existing_translations matches';
      Ok (if counted then S n else n)
  end.

(** [translate_po_file], lines 122-236.  [input_file] and [output_file]
    are the texts of the two files, [None] for a file that does not
    exist. *)
Definition translate_po_file (input_file output_file : option str)
    : result report :=
  match input_file with
  | None => Raise FileNotFoundError
  | Some content =>
      let existing_translations := load_existing output_file in
      let matches := finditer content in
      total ← count_untranslated existing_translations matches;
      '(translated_content, st) ←
        re_sub (translate_match existing_translations) content (MkState 0 []);
      let translated_content := header_patch translated_content in
      Ok (MkReport translated_content total (current_count st) (requests st))
  end.

End Merge.

(** ** Replacing the entries of a scanned text

    [splice toks reps] is the text of [toks] with the k-th entry written as
    the k-th text of [reps]; the plain characters stay where they are. *)
Fixpoint splice (toks : list token) (reps : list str) : str :=
  match toks with
  | [] => []
  | Plain c :: toks' => c :: splice toks' reps
  | Entry m :: toks' =>
      match reps with
      | r :: reps' => r ++ splice toks' reps'
      | [] => group0 m ++ splice toks' []
      end
  end.

(** The entry text that [translate_match] answers when no request goes
    to the service: the cached translation if there is one, the entry as
    it stands otherwise. *)
Definition resolve (existing_translations : gmap str str) (m : re_match)
    : str :=
  match english_text m, existing_translations !! english_text m with
  | _ :: _, Some cached => entry_text (english_text m) cached
  | _, _ => group0 m
  end.

(** A digit table for the examples: the ASCII digits. *)
Definition ascii_isdigit (c : N) : bool := (48 <=? c) && (c <=? 57).

(** Two services for the examples: one that is down, and one that answers
    every request with the same text. *)
Definition service_down : nat -> str -> reply := fun _ _ => Failed.
Definition service_says (text : str) : nat -> str -> reply :=
  fun _ _ => Translated text.

(** ** Example texts *)

Definition escaped_n : str := backslash :: lit "n".   (* the two characters \n *)

(** An existing catalog with one translated entry, Save. *)
Definition save_catalog : str :=
  entry_text (lit "Save") [0x4fdd; 0x5b58] ++ [LF].

(** A template with one untranslated entry, Cancel. *)
Definition cancel_template : str :=
  entry_text (lit "Cancel") [] ++ [LF].


(** The head of an Odoo template: the empty entry, then the header lines. *)
Definition odoo_head : str :=
  entry_text [] [] ++ [LF].

Definition odoo_header_rest : str :=
  lit " 17.0" ++ escaped_n ++ [dq; LF]
  ++ [dq] ++ lit "Language: zh_CN" ++ escaped_n ++ [dq; LF].

(** A header that already declares its language. *)
Definition header_with_language : str :=
  odoo_head ++ header_marker ++ odoo_header_rest.

(** A template with a header and two entries whose source texts differ,
    given by what stands before and after the first of them. *)
Definition small_before : str :=
  odoo_head ++ header_marker ++ lit " 17.0" ++ escaped_n ++ [dq; LF; LF]
  ++ lit "#. module: sale" ++ [LF].

Definition small_after : str :=
  [LF; LF] ++ entry_text (lit "res_partner") (lit "X") ++ [LF].

Definition small_template : str :=
  small_before ++ entry_text (lit "(copy)") [] ++ small_after.


(** A template with one entry; its inline translation is the header
    text without the opening quote. *)
Definition marker_template : str :=
  entry_text (lit "a_b") (lit "Project-Id-Version: Odoo Server") ++ [LF].

(** A reply of the service with a blank inside the line break marker. *)
Definition spaced_reply : str :=
  lit "A" ++ [backslash] ++ lit " nB".

(** ** Paths, as [posixpath] has them *)

Definition sep : N := 47.

Definition endswith_sep (path : str) : bool :=
  match last path with
  | Some c => c =? sep
  | None => false
  end.

(** One step of [os.path.join]: the component [b] is added to [path]. *)
Definition join_step (path b : str) : str :=
  if startswith [sep] b then b
  else match path with
       | [] => b
       | _ :: _ => if endswith_sep path then path ++ b else path ++ [sep] ++ b
       end.

(** [os.path.join(a, *p)] *)
Definition os_path_join (a : str) (p : list str) : str := foldl join_step a p.

(** [(p[:i], p[i:])] for [i = p.rfind('/') + 1]. *)
Fixpoint rsplit_sep (p : str) : str * str :=
  match p with
  | [] => ([], [])
  | c :: p' =>
      let '(head, tail) := rsplit_sep p' in
      match head with
      | _ :: _ => (c :: head, tail)
      | [] => if c =? sep then ([c], tail) else ([], c :: tail)
      end
  end.

(** [os.path.basename(p)] *)
Definition basename (p : str) : str := (rsplit_sep p).2.

Fixpoint lstrip_sep (s : str) : str :=
  match s with
  | [] => []
  | c :: s' => if c =? sep then lstrip_sep s' else s
  end.

(** [os.path.dirname(p)] *)
Definition dirname (p : str) : str :=
  let head := (rsplit_sep p).1 in
  match head with
  | [] => head
  | _ :: _ =>
      if forallb (fun c => c =? sep) head then head
      else rev (lstrip_sep (rev head))
  end.

(** ** The discovery of the templates, lines 63-88 *)

Section Discovery.

(** [glob.glob] and [os.path.exists]: what they answer is the matter of
    the file system. *)
Variable glob : str -> list str.
Variable path_exists : str -> bool.

(** The body of the loop of lines 76-86 for one manifest path. *)
Definition pot_of (manifest_path : str) : option (str * str) :=
  let module_dir := dirname manifest_path in
  let module_name := basename module_dir in
  let i18n_dir := os_path_join module_dir [lit "i18n"] in
  if path_exists i18n_dir then
    let pot_path := os_path_join i18n_dir [module_name ++ lit ".pot"] in
    if path_exists pot_path then Some (module_dir, pot_path) else None
  else None.

Definition find_pot_files (base_dir : str) : list (str * str) :=
  omap pot_of (glob (os_path_join base_dir [lit "*/__manifest__.py"])).

End Discovery.

(** ** The command, lines 238-284 *)

(** What [parser.parse_args()] gives: [module] is [None] when the option
    is not given. *)
Record args : Type := MkArgs {
  dir : str;
  module : option str
}.

(** Line 272. *)
Definition output_path_of (module_dir : str) : str :=
  os_path_join module_dir [lit "i18n"; lit "zh_CN.po"].

(** Lines 261-265: the modules that are left when a module is named. *)
Definition select_modules (module : option str) (pot_files : list (str * str))
    : list (str * str) :=
  match module with
  | Some (c :: name) =>
      filter (fun dp => basename dp.1 = c :: name) pot_files
  | _ => pot_files
  end.

Section Command.

Variable isdigit : N -> bool.
Variable translate : nat -> str -> reply.
Variable glob : str -> list str.

(** The directories that exist.  The state of the command is [files], the
    text files by their paths; the directories that [os.makedirs] makes
    are not part of it. *)
Variable isdir : str -> bool.

Definition file_exists (files : gmap str str) (p : str) : bool :=
  bool_decide (is_Some (files !! p)) || isdir p.

(** The loop of lines 270-279.  An exception leaves the loop: it is
    caught by the handler of line 283, which prints it.  Opening a
    directory raises. *)
Fixpoint translate_all (files : gmap str str) (pot_files : list (str * str))
    : gmap str str :=
  match pot_files with
  | [] => files
  | (module_dir, pot_path) :: rest =>
      let output_path := output_path_of module_dir in
      if isdir pot_path || isdir output_path then files
      else
        match translate_po_file isdigit translate
                (files !! pot_path) (files !! output_path) with
        | Ok r => translate_all (<[output_path := written r]> files) rest
        | Raise _ => files
        end
  end.

(** [main], without what it prints. *)
Definition main (a : args) (files : gmap str str) : gmap str str :=
  let pot_files := find_pot_files glob (file_exists files) (dir a) in
  translate_all files (select_modules (module a) pot_files).

End Command.

(** ** An example file system *)

(** Two modules under addons, each with its manifest. *)
Definition glob_addons : str -> list str :=
  fun _ => [ lit "addons/stock/__manifest__.py";
             lit "addons/sale/__manifest__.py";
             lit "addons/web/__manifest__.py" ].

Definition isdir_addons : str -> bool :=
  fun p => str_eqb p (lit "addons/stock/i18n")
           || str_eqb p (lit "addons/sale/i18n")
           || str_eqb p (lit "addons/web/i18n").

(** The template of stock has only entries that the classifier passes,
    that of sale has the entry Cancel. *)
Definition files_addons : gmap str str :=
  <[ lit "addons/stock/i18n/stock.pot" := small_template ]>
    (<[ lit "addons/sale/i18n/sale.pot" := cancel_template ]>
       (<[ lit "addons/web/i18n/web.pot" := small_template ]> ∅)).

(** ** Files as they are on disk

    Lines 138, 148 and 225 open the files in text mode without
    [newline=].  What is read is the decoded text with every line ending
    made a line feed; what is written has every line feed made the line
    separator of the platform.  A file is given here by its decoded
    characters; the UTF-8 coding itself is one to one on them. *)

Definition CR : N := 13.

(** What [f.read()] returns for the characters [raw] of a file: a
    carriage return with or without a line feed behind it is read as one
    line feed. *)
Fixpoint universal_newlines (raw : str) : str :=
  match raw with
  | [] => []
  | c :: raw' =>
      if c =? CR then
        LF :: match raw' with
              | d :: raw'' =>
                  if d =? LF then universal_newlines raw''
                  else universal_newlines raw'
              | [] => []
              end
      else c :: universal_newlines raw'
  end.

(** What [f.write(text)] puts into the file, [linesep] being
    [os.linesep]. *)
Definition write_newlines (linesep text : str) : str :=
  flat_map (fun c => if c =? LF then linesep else [c]) text.

Section OnDisk.

Variable isdigit : N -> bool.
Variable translate : nat -> str -> reply.
Variable linesep : str.

(** [translate_po_file] with the reading and the writing of its files:
    [input_file] and [output_file] are the characters of the two files,
    [written] those of the output file after the run. *)
Definition translate_po_file_io (input_file output_file : option str)
    : result report :=
  r ← translate_po_file isdigit translate
        (universal_newlines <$> input_file)
        (universal_newlines <$> output_file);
  Ok (MkReport (write_newlines linesep (written r))
        (total_untranslated r) (translated r) (service_requests r)).

End OnDisk.

(** [inserted s out]: [out] is [s] with some text put directly behind
    occurrences of the text of line 216, found from the left; nothing of
    [s] is taken away or changed. *)
Inductive inserted : str -> str -> Prop :=
  | inserted_none (s : str) :
      str_in header_marker s = false -> inserted s s
  | inserted_behind (pre post ins out : str) :
      str_in header_marker pre = false ->
      inserted post out ->
      inserted (pre ++ header_marker ++ post)
        (pre ++ header_marker ++ ins ++ out).

(** ** More example texts *)

(** The head of a template as Odoo exports it: the header line is
    followed by another header line, not by a language declaration. *)
Definition standard_header_rest : str :=
  [dq] ++ lit "Report-Msgid-Bugs-To: " ++ escaped_n ++ [dq; LF].

Definition standard_header : str :=
  odoo_head ++ header_marker ++ lit " 17.0" ++ escaped_n ++ [dq; LF]
  ++ standard_header_rest.



(** A comment line that ends with carriage return and line feed, and one
    that ends with a line feed only. *)
Definition crlf_file : str := lit "# module: sale" ++ [CR; LF].
Definition lf_file : str := lit "# module: sale" ++ [LF].

(** ** Names for what the code tests inline *)

(** The test of lines 105-107: the text has one of the code signs. *)
Definition code_like (text : str) : bool :=
  existsb (fun code_sign => str_in code_sign text) code_signs.

(** The texts on which the classifier gets to its first or second
    [return False]. *)
Definition passes (text : str) : bool :=
  match text with
  | [] => true
  | _ :: _ => code_like text
  end.

(** What the four replacements of lines 183-184 do to one character. *)
Definition straighten (c : N) : N :=
  if (c =? 0x201c) || (c =? 0x201d) then dq
  else if (c =? 0x2018) || (c =? 0x2019) then sq
  else c.

(** * Properties *)

(** Steps of the error monad, and nothing else. *)
Ltac rsimpl :=
  cbn [mbind mret result_bind result_ret negb fst snd andb].
Ltac rsimpl_in H :=
  cbn [mbind mret result_bind result_ret negb fst snd andb] in H.

(** ** Prefixes and the pattern *)

Lemma strip_prefix_Some (p s r : str) :
  strip_prefix p s = Some r -> s = p ++ r.
Proof.
  revert s; induction p as [|a p IH]; intros [|b s]; simpl; try congruence.
  destruct (N.eqb_spec a b) as [->|]; [|congruence].
  intros H; f_equal; auto.
Qed.

Lemma strip_prefix_app (p r : str) : strip_prefix p (p ++ r) = Some r.
Proof.
  induction p as [|a p IH]; simpl; [done|]. by rewrite N.eqb_refl.
Qed.

Lemma startswith_app (p r : str) : startswith p (p ++ r) = true.
Proof. unfold startswith. by rewrite strip_prefix_app. Qed.

Lemma lazy_to_quote_Some (s g r : str) :
  lazy_to_quote s = Some (g, r) -> s = g ++ dq :: r.
Proof.
  revert g; induction s as [|c s IH]; intros g; simpl; [done|].
  destruct (N.eqb_spec c dq) as [->|].
  - intros [= <- <-]. done.
  - destruct (lazy_to_quote s) as [[g' r']|]; simpl; [|done].
    intros [= <- <-]. simpl. f_equal. by apply IH.
Qed.

Lemma lazy_pair_cons (c : N) (s : str) :
  lazy_pair (c :: s) =
  match strip_prefix pair_middle (c :: s) ≫= lazy_to_quote with
  | Some (g5, rest) => Some ([], g5, rest)
  | None => '(g2, g5, rest) ← lazy_pair s; Some (c :: g2, g5, rest)
  end.
Proof. reflexivity. Qed.

Lemma lazy_pair_Some (s g2 g5 r : str) :
  lazy_pair s = Some (g2, g5, r) ->
  s = g2 ++ pair_middle ++ g5 ++ dq :: r.
Proof.
  revert g2; induction s as [|c s IH]; intros g2.
  - done.
  - rewrite lazy_pair_cons.
    destruct (strip_prefix pair_middle (c :: s)) as [s2|] eqn:Hp.
    + cbn [mbind option_bind].
      destruct (lazy_to_quote s2) as [[g r']|] eqn:Hq.
      * intros [= <- <- <-]. apply strip_prefix_Some in Hp.
        apply lazy_to_quote_Some in Hq. by rewrite Hp, Hq.
      * destruct (lazy_pair s) as [[[g2' g5'] r']|]; [|done].
        intros [= <- <- <-]. cbn [app]. f_equal. by apply IH.
    + cbn [mbind option_bind].
      destruct (lazy_pair s) as [[[g2' g5'] r']|]; [|done].
      intros [= <- <- <-]. cbn [app]. f_equal. by apply IH.
Qed.

Lemma match_at_Some (s : str) (m : re_match) (r : str) :
  match_at s = Some (m, r) -> s = group0 m ++ r.
Proof.
  unfold match_at.
  destruct (strip_prefix msgid_open s) as [s1|] eqn:Hp; [|done].
  cbn [mbind option_bind].
  destruct (lazy_pair s1) as [[[g2 g5] r']|] eqn:Hl; [|done].
  intros [= <- <-]. apply strip_prefix_Some in Hp. apply lazy_pair_Some in Hl.
  unfold group0, entry_text. cbn [english_text existing_translation].
  rewrite Hp, Hl. by rewrite <- !app_assoc.
Qed.

Lemma group0_cons (m : re_match) : exists c t, group0 m = c :: t.
Proof. unfold group0, entry_text, msgid_open. simpl. eauto. Qed.

(** ** The scan *)

Lemma scan_from_skip (p r : str) :
  scan_from (length p) (p ++ r) = scan_from 0 r.
Proof. induction p as [|c p IH]; simpl; [by destruct r|done]. Qed.

Lemma scan_nil : scan [] = [].
Proof. done. Qed.

Lemma scan_cons (c : N) (s : str) :
  scan (c :: s) =
  match match_at (c :: s) with
  | Some (m, _) => Entry m :: scan_from (length (group0 m) - 1) s
  | None => Plain c :: scan s
  end.
Proof. reflexivity. Qed.

Lemma scan_match (s : str) (m : re_match) (r : str) :
  match_at s = Some (m, r) -> scan s = Entry m :: scan r.
Proof.
  intros Hm. pose proof (match_at_Some _ _ _ Hm) as Hs.
  destruct (group0_cons m) as (c & t & Hg).
  destruct s as [|c' s']; [by rewrite Hg in Hs|].
  rewrite scan_cons, Hm. f_equal.
  rewrite Hg in Hs. cbn [app] in Hs. assert (s' = t ++ r) as -> by congruence.
  rewrite Hg. cbn [length]. rewrite Nat.sub_1_r. cbn [Nat.pred].
  apply scan_from_skip.
Qed.

Lemma scan_plain (c : N) (s : str) :
  match_at (c :: s) = None -> scan (c :: s) = Plain c :: scan s.
Proof. intros Hm. by rewrite scan_cons, Hm. Qed.

(** An induction principle that follows the scan. *)
Lemma scan_ind (P : str -> Prop) :
  P [] ->
  (forall c s, match_at (c :: s) = None -> P s -> P (c :: s)) ->
  (forall s m r, match_at s = Some (m, r) -> s = group0 m ++ r -> P r -> P s) ->
  forall s, P s.
Proof.
  intros Hnil Hplain Hentry s.
  remember (length s) as n eqn:Hn. revert s Hn.
  induction n as [n IH] using lt_wf_ind. intros s Hn.
  destruct s as [|c s]; [done|].
  destruct (match_at (c :: s)) as [[m r]|] eqn:Hm.
  - pose proof (match_at_Some _ _ _ Hm) as Hs.
    apply (Hentry _ m r Hm Hs).
    apply (IH (length r)); [|done].
    destruct (group0_cons m) as (c' & t & Hg). rewrite Hn, Hs, Hg.
    rewrite length_app. simpl. lia.
  - apply Hplain; [done|]. apply (IH (length s)); [|done]. simpl in Hn. lia.
Qed.

Lemma finditer_match (s : str) (m : re_match) (r : str) :
  match_at s = Some (m, r) -> finditer s = m :: finditer r.
Proof. intros Hm. unfold finditer. by rewrite (scan_match _ _ _ Hm). Qed.

Lemma finditer_plain (c : N) (s : str) :
  match_at (c :: s) = None -> finditer (c :: s) = finditer s.
Proof. intros Hm. unfold finditer. by rewrite (scan_plain _ _ Hm). Qed.

(** The template is its plain characters and its entries, in order. *)
Lemma splice_group0 (s : str) :
  splice (scan s) (group0 <$> finditer s) = s.
Proof.
  induction s as [|c s Hm IH|s m r Hm Hs IH] using scan_ind.
  - done.
  - rewrite (finditer_plain _ _ Hm), (scan_plain _ _ Hm).
    cbn [splice]. by rewrite IH.
  - rewrite (finditer_match _ _ _ Hm), (scan_match _ _ _ Hm), fmap_cons.
    cbn [splice]. by rewrite IH, <- Hs.
Qed.

(** ** Substitution *)

(** A replacement function that answers [rep m] and leaves the state alone
    on every entry of [toks] takes the scan to its splice. *)
Lemma sub_tokens_pure {S : Type} (repl : re_match -> S -> result (str * S))
    (rep : re_match -> str) (toks : list token) (st : S) :
  Forall (fun m => repl m st = Ok (rep m, st)) (entries toks) ->
  sub_tokens repl toks st = Ok (splice toks (rep <$> entries toks), st).
Proof.
  induction toks as [|[c|m] toks IH]; intros Hall.
  - done.
  - cbn [sub_tokens]. change (entries (Plain c :: toks)) with (entries toks) in *.
    by rewrite (IH Hall).
  - change (entries (Entry m :: toks)) with (m :: entries toks) in *.
    apply Forall_cons in Hall as [Hm Hall].
    cbn [sub_tokens]. rewrite Hm. rsimpl. by rewrite (IH Hall).
Qed.

(** Whatever the replacement function does, a substitution that returns
    has only rewritten the entries. *)
Lemma sub_tokens_inv {S : Type} (repl : re_match -> S -> result (str * S))
    (toks : list token) (st st' : S) (out : str) :
  sub_tokens repl toks st = Ok (out, st') ->
  exists reps,
    Forall2 (fun m r => exists s1 s2, repl m s1 = Ok (r, s2)) (entries toks) reps
    /\ out = splice toks reps.
Proof.
  revert st out; induction toks as [|[c|m] toks IH]; intros st out.
  - intros [= <- <-]. exists []. split; [constructor|done].
  - cbn [sub_tokens].
    destruct (sub_tokens repl toks st) as [[out' st1]|e] eqn:Hrest; [|done].
    intros [= <- <-]. destruct (IH _ _ Hrest) as (reps & Hall & ->).
    exists reps. split; [done|]. by destruct reps.
  - cbn [sub_tokens].
    destruct (repl m st) as [[r st1]|e] eqn:Hm; [|done]. rsimpl.
    destruct (sub_tokens repl toks st1) as [[out' st2]|e] eqn:Hrest; [|done].
    intros [= <- <-]. destruct (IH _ _ Hrest) as (reps & Hall & ->).
    exists (r :: reps). split; [|done].
    change (entries (Entry m :: toks)) with (m :: entries toks).
    constructor; eauto.
Qed.

(** ** The existing translations *)

Lemma remember_lookup (d : gmap str str) (pair : re_match) (k c : str) :
  remember d pair !! k = Some c ->
  d !! k = Some c
  \/ (english_text pair = k /\ existing_translation pair = c
      /\ k <> [] /\ c <> []).
Proof.
  unfold remember.
  destruct (english_text pair) as [|a e] eqn:He; [by left|].
  destruct (existing_translation pair) as [|b t] eqn:Ht; [by left|].
  rewrite lookup_insert_Some. intros [[<- <-]|[_ ?]]; [right|by left].
  done.
Qed.

Lemma foldl_remember_lookup (ms : list re_match) (d : gmap str str)
    (k c : str) :
  foldl remember d ms !! k = Some c ->
  d !! k = Some c
  \/ exists pair, pair ∈ ms /\ english_text pair = k
       /\ existing_translation pair = c /\ k <> [] /\ c <> [].
Proof.
  revert d; induction ms as [|m ms IH]; intros d; cbn [foldl]; [by left|].
  intros H. destruct (IH _ H) as [Hd|(pair & Hin & ?)].
  - destruct (remember_lookup _ _ _ _ Hd) as [?|?]; [by left|].
    right. exists m. split; [left|done].
  - right. exists pair. split; [by right|done].
Qed.

(** Every remembered translation comes from a pair of the catalog whose
    two texts are not empty. *)
Lemma load_pairs_lookup (existing_content k c : str) :
  load_pairs existing_content !! k = Some c ->
  exists pair, pair ∈ finditer existing_content /\ english_text pair = k
    /\ existing_translation pair = c /\ k <> [] /\ c <> [].
Proof.
  intros H. destruct (foldl_remember_lookup _ _ _ _ H) as [H0|?]; [|done].
  by rewrite lookup_empty in H0.
Qed.



(** ** The classifier as written *)

Lemma stmt_110_raises : stmt_110 = Raise (NameError name_110_left).
Proof. vm_compute. reflexivity. Qed.

Section Facts.

Variable isdigit : N -> bool.
Variable translate : nat -> str -> reply.

Lemma should_translate_cases (text : str) :
  should_translate isdigit text = Ok false
  \/ should_translate isdigit text = Raise (NameError name_110_left).
Proof.
  unfold should_translate. destruct text as [|c text]; [by left|].
  destruct (existsb _ code_signs); [by left|].
  right. by rewrite stmt_110_raises.
Qed.

Lemma should_translate_Ok (text : str) (b : bool) :
  should_translate isdigit text = Ok b -> b = false.
Proof.
  destruct (should_translate_cases text) as [H|H]; rewrite H; congruence.
Qed.

Lemma try_translate_msgid (m : re_match) (st : run_state) :
  exists t, (try_translate translate m st).1 = entry_text (english_text m) t.
Proof.
  unfold try_translate.
  destruct (translate _ _) as [chinese_text|]; rsimpl; [eauto|].
  exists (existing_translation m). done.
Qed.

Lemma resolve_empty (m : re_match) : resolve ∅ m = group0 m.
Proof.
  unfold resolve. destruct (english_text m); [done|].
  by rewrite lookup_empty.
Qed.

(** Without existing translations nothing is rewritten. *)
Lemma splice_resolve_None (content : str) :
  splice (scan content) (resolve (load_existing None) <$> finditer content)
  = content.
Proof.
  etransitivity; [|apply splice_group0]. f_equal.
  apply Forall_fmap_ext_1, Forall_forall. intros m _. apply resolve_empty.
Qed.

Lemma resolve_msgid (E : gmap str str) (m : re_match) :
  exists t, resolve E m = entry_text (english_text m) t.
Proof.
  unfold resolve, group0.
  destruct (english_text m); [eauto|]. destruct (E !! _); eauto.
Qed.

Lemma translate_match_msgid (E : gmap str str) (m : re_match)
    (st st' : run_state) (r : str) :
  translate_match isdigit translate E m st = Ok (r, st') ->
  exists t, r = entry_text (english_text m) t.
Proof.
  unfold translate_match, group0.
  destruct (english_text m) as [|c e] eqn:He; [intros [= <- <-]; eauto|].
  destruct (E !! (c :: e)) as [cached|]; [intros [= <- <-]; eauto|].
  destruct (existing_translation m) as [|b t]; [|intros [= <- <-]; eauto].
  destruct (should_translate isdigit (c :: e)) as [[|]|]; rsimpl; [| |done].
  - intros [= H]. destruct (try_translate_msgid m st) as [t Ht].
    rewrite H, He in Ht. eauto.
  - intros [= <- <-]. eauto.
Qed.

(** An entry that the classifier answers [False] for is resolved without
    the service, whatever the existing translations are. *)
Lemma translate_match_resolve (E : gmap str str) (m : re_match)
    (st : run_state) :
  should_translate isdigit (english_text m) = Ok false ->
  translate_match isdigit translate E m st = Ok (resolve E m, st).
Proof.
  intros Hc. unfold translate_match, resolve.
  destruct (english_text m) as [|c e] eqn:He; [done|].
  destruct (E !! (c :: e)) as [cached|]; [done|].
  destruct (existing_translation m) as [|b t]; [|done].
  by rewrite Hc.
Qed.

Lemma count_untranslated_Ok (E : gmap str str) (ms : list re_match)
    (n : nat) :
  count_untranslated isdigit E ms = Ok n ->
  n = O /\
  Forall (fun m => should_translate isdigit (english_text m) = Ok false) ms.
Proof.
  revert n; induction ms as [|m ms IH]; intros n.
  - intros [= <-]. split; [done|constructor].
  - cbn [count_untranslated].
    destruct (should_translate_cases (english_text m)) as [H|H]; rewrite H;
      [|done].
    rsimpl. destruct (count_untranslated isdigit E ms) as [k|e]; [|done].
    destruct (IH k eq_refl) as [-> Hall]. rsimpl. intros [= <-].
    split; [done|by constructor].
Qed.

Lemma count_untranslated_skip (E : gmap str str) (ms : list re_match) :
  Forall (fun m => should_translate isdigit (english_text m) = Ok false) ms ->
  count_untranslated isdigit E ms = Ok O.
Proof.
  induction 1 as [|m ms Hm _ IH]; [done|].
  cbn [count_untranslated]. rewrite Hm. rsimpl. by rewrite IH.
Qed.

(** The runs that return: no entry makes the classifier raise, and then
    no entry reaches the service. *)
Lemma translate_po_file_Ok (content : str) (output_file : option str)
    (r : report) :
  translate_po_file isdigit translate (Some content) output_file = Ok r ->
  Forall (fun m => should_translate isdigit (english_text m) = Ok false)
    (finditer content)
  /\ r = MkReport
           (header_patch
              (splice (scan content)
                 (resolve (load_existing output_file) <$> finditer content)))
           O O [].
Proof.
  unfold translate_po_file. intros H.
  destruct (count_untranslated isdigit _ (finditer content)) as [n|e] eqn:Hn;
    [|done].
  destruct (count_untranslated_Ok _ _ _ Hn) as [-> Hall]. split; [done|].
  rsimpl_in H. unfold re_sub in H.
  rewrite (sub_tokens_pure _ (resolve (load_existing output_file))) in H.
  - rsimpl_in H. injection H as <-. reflexivity.
  - eapply Forall_impl; [exact Hall|]. intros m Hm.
    by apply translate_match_resolve.
Qed.

Lemma translate_po_file_skip (content : str) (output_file : option str) :
  Forall (fun m => should_translate isdigit (english_text m) = Ok false)
    (finditer content) ->
  translate_po_file isdigit translate (Some content) output_file
  = Ok (MkReport
          (header_patch
             (splice (scan content)
                (resolve (load_existing output_file) <$> finditer content)))
          O O []).
Proof.
  intros Hall. unfold translate_po_file.
  rewrite (count_untranslated_skip _ _ Hall). rsimpl. unfold re_sub.
  rewrite (sub_tokens_pure _ (resolve (load_existing output_file))); [done|].
  eapply Forall_impl; [exact Hall|]. intros m Hm.
  by apply translate_match_resolve.
Qed.

End Facts.

(** ** Replacement *)

Lemma str_in_cons (sub : str) (c : N) (s : str) :
  str_in sub (c :: s) = startswith sub (c :: s) || str_in sub s.
Proof. reflexivity. Qed.

Lemma replace_from_cons (old new : str) (c : N) (s : str) :
  replace_from 0 old new (c :: s) =
  if startswith old (c :: s)
  then new ++ replace_from (length old - 1) old new s
  else c :: replace_from 0 old new s.
Proof. reflexivity. Qed.

Lemma replace_from_skip (old new p r : str) :
  replace_from (length p) old new (p ++ r) = replace_from 0 old new r.
Proof. induction p as [|c p IH]; [by destruct r|done]. Qed.

(** A text in which [old] does not occur is left as it is. *)
Lemma replace_from_absent (old new s : str) :
  str_in old s = false -> replace_from 0 old new s = s.
Proof.
  induction s as [|c s IH]; [done|].
  rewrite str_in_cons, replace_from_cons.
  intros [-> Hs]%orb_false_elim. by rewrite (IH Hs).
Qed.

(** A text that starts with [q] and has no other [q] cannot start inside
    [p] and run over the [q] that follows [p]. *)
Lemma strip_prefix_before (q : N) (body p r : str) :
  char_in q body = false ->
  is_Some (strip_prefix body (p ++ q :: r)) -> is_Some (strip_prefix body p).
Proof.
  revert p; induction body as [|b body IH]; intros p Hq; [by eexists|].
  apply orb_false_elim in Hq as [Hqb Hq].
  destruct p as [|c p]; cbn [app strip_prefix].
  - rewrite N.eqb_sym, Hqb. by intros [? ?].
  - destruct (N.eqb b c); [by apply IH|by intros [? ?]].
Qed.

Lemma startswith_before (q : N) (body : str) (c : N) (p r : str) :
  char_in q body = false ->
  startswith (q :: body) (c :: p) = false ->
  startswith (q :: body) ((c :: p) ++ q :: r) = false.
Proof.
  intros Hq. unfold startswith. cbn [app strip_prefix].
  destruct (N.eqb q c); [|done].
  destruct (strip_prefix body p) as [x|] eqn:Hp; [done|]. intros _.
  destruct (strip_prefix body (p ++ q :: r)) as [y|] eqn:Hpr; [|done].
  destruct (strip_prefix_before q body p r Hq) as [z Hz]; [by eexists|].
  congruence.
Qed.

(** The first occurrence of [q :: body] is replaced, and the replacement
    goes on behind it. *)
Lemma replace_first (q : N) (body new pre post : str) :
  char_in q body = false ->
  str_in (q :: body) pre = false ->
  replace (q :: body) new (pre ++ (q :: body) ++ post)
  = pre ++ new ++ replace (q :: body) new post.
Proof.
  intros Hq. unfold replace.
  induction pre as [|c pre IH]; intros Hpre.
  - change ([] ++ (q :: body) ++ post) with (q :: (body ++ post)).
    rewrite replace_from_cons.
    change (q :: body ++ post) with ((q :: body) ++ post).
    rewrite startswith_app. cbn [length app]. rewrite Nat.sub_1_r.
    cbn [Nat.pred]. by rewrite replace_from_skip.
  - rewrite str_in_cons in Hpre. apply orb_false_elim in Hpre as [Hc Hpre].
    change ((c :: pre) ++ (q :: body) ++ post)
      with (c :: (pre ++ (q :: body) ++ post)).
    rewrite replace_from_cons.
    change (c :: pre ++ (q :: body) ++ post)
      with ((c :: pre) ++ q :: (body ++ post)).
    rewrite (startswith_before q body c pre _ Hq Hc).
    cbn [app]. f_equal. by apply IH.
Qed.

Lemma header_marker_cons :
  header_marker = dq :: lit "Project-Id-Version: Odoo Server".
Proof. reflexivity. Qed.

Lemma header_marker_one_quote :
  char_in dq (lit "Project-Id-Version: Odoo Server") = false.
Proof. vm_compute. reflexivity. Qed.

(** * The claims *)

Section Claims.

Variable isdigit : N -> bool.
Variable translate : nat -> str -> reply.

(** C1. The classifier is meant to return a boolean for every string,
    those with a line break marker included.  As written it raises
    [NameError] on the text Hello, and on a text with the marker: the text
    is not empty and has no code sign, so line 110 is run, and the first
    name of that line is not bound. *)
Theorem should_translate_Hello_raises :
  should_translate isdigit (lit "Hello") = Raise (NameError name_110_left)
  /\ should_translate isdigit (lit "Line one" ++ escaped_n ++ lit "Line two")
     = Raise (NameError name_110_left).
Proof. split; vm_compute; reflexivity. Qed.

(** C2. The classifier is meant to answer true for plain text.  As
    written it never does: on every text it answers false or raises
    [NameError], and on the text Hello world it raises. *)
Theorem should_translate_never_true :
  (forall text : str,
      should_translate isdigit text = Ok false
      \/ should_translate isdigit text = Raise (NameError name_110_left))
  /\ should_translate isdigit (lit "Hello world")
     = Raise (NameError name_110_left).
Proof.
  split; [apply should_translate_cases|]. vm_compute. reflexivity.
Qed.

(** C8. The classifier is meant to answer false for a text of digits and
    of the characters . , : - _ / \ only.  As written it raises
    [NameError] on the text 123, before the test of line 117 is
    reached. *)
Theorem should_translate_123_raises :
  should_translate isdigit (lit "123") = Raise (NameError name_110_left).
Proof. vm_compute. reflexivity. Qed.


(** C5. A reply of the service is meant to have a blank inside a line
    break marker repaired into the two characters backslash and n.  As
    written the three characters backslash, blank, n become one line
    feed character, which is then emitted inside the msgstr. *)
Theorem sanitize_spaced_reply :
  sanitize spaced_reply = lit "A" ++ [LF] ++ lit "B"
  /\ forall st,
      (try_translate (service_says spaced_reply)
         (MkMatch (lit "A" ++ escaped_n ++ lit "B") []) st).1
      = entry_text (lit "A" ++ escaped_n ++ lit "B")
          (lit "A" ++ [LF] ++ lit "B").
Proof. split; [|intros st]; vm_compute; reflexivity. Qed.

(** C7. A failure of the service on one entry is meant to leave the
    entry as it is while the run goes on and the document is written.
    The [try] statement does leave the entry and the counter as they are
    when the service fails, but as written the run on a template with the
    entry Cancel raises [NameError] while it counts the entries, before
    any request is sent and before anything is written. *)
Theorem translate_po_file_Cancel_raises :
  translate_po_file isdigit service_down (Some cancel_template) None
  = Raise (NameError name_110_left)
  /\ forall m st,
       try_translate service_down m st
       = (group0 m, MkState (current_count st) (requests st ++ [english_text m])).
Proof. split; [vm_compute; reflexivity|]. intros m st. reflexivity. Qed.


(** The replacement of line 215 at the first occurrence of its text: what
    stands in front is left as it is, the occurrence is replaced whatever
    follows it, and the replacement goes on behind it. *)
Lemma header_patch_first (pre post : str) :
  str_in header_marker pre = false ->
  header_patch pre = pre
  /\ header_patch (pre ++ header_marker ++ post)
     = pre ++ header_replacement ++ header_patch post.
Proof.
  intros Hpre. unfold header_patch. split.
  - by apply replace_from_absent.
  - rewrite header_marker_cons in *.
    by apply replace_first; [apply header_marker_one_quote|].
Qed.

End Claims.

(** ** The claims on examples *)

(** The template has the entry Save with another translation inline; the
    existing catalog has its translation, and that one is answered. *)
Lemma translate_match_Save :
  translate_match ascii_isdigit service_down (load_existing (Some save_catalog))
    (MkMatch (lit "Save") (lit "Store")) (MkState 0 [])
  = Ok (entry_text (lit "Save") [0x4fdd; 0x5b58], MkState 0 []).
Proof. vm_compute. reflexivity. Qed.



(** The source text is not repeated here, but the header patch reaches
    into the inline translation of the entry: the first output has another
    entry than the template, and the second run writes another text. *)
Lemma translate_po_file_twice_marker :
  exists r1 r2,
    translate_po_file ascii_isdigit service_down (Some marker_template) None
    = Ok r1
    /\ translate_po_file ascii_isdigit service_down (Some marker_template)
         (Some (written r1))
       = Ok r2
    /\ finditer (written r1) <> finditer marker_template
    /\ written r2 <> written r1.
Proof.
  eexists _, _. split; [vm_compute; reflexivity|].
  split; [vm_compute; reflexivity|].
  split; intros H; vm_compute in H; congruence.
Qed.


(** The header of this document is followed by a language declaration,
    and the replacement of line 215 is made all the same. *)
Lemma header_patch_with_language :
  header_with_language
  = odoo_head ++ header_marker ++ lit " 17.0" ++ escaped_n ++ [dq; LF]
    ++ [dq] ++ lit "Language: zh_CN" ++ escaped_n ++ [dq; LF]
  /\ header_patch header_with_language
     = odoo_head ++ header_replacement ++ odoo_header_rest
  /\ header_patch header_with_language <> header_with_language.
Proof.
  split; [reflexivity|]. split; [vm_compute; reflexivity|].
  intros H. apply (f_equal length) in H. vm_compute in H. discriminate H.
Qed.

(** The patch is not made once only: every occurrence is replaced. *)
Lemma header_patch_twice :
  header_patch (header_marker ++ [LF] ++ header_marker)
  = header_replacement ++ [LF] ++ header_replacement.
Proof. vm_compute. reflexivity. Qed.

(** In front of the header text there is the empty entry; behind it the
    rest of the header, language declaration included. *)
Lemma header_patch_first_odoo :
  header_patch odoo_head = odoo_head
  /\ header_patch (odoo_head ++ header_marker ++ odoo_header_rest)
     = odoo_head ++ header_replacement ++ header_patch odoo_header_rest.
Proof.
  apply (header_patch_first odoo_head odoo_header_rest).
  vm_compute. reflexivity.
Defined.

(** * Further properties of the code *)

(** ** The pattern on written entries *)

Lemma char_in_cons (c a : N) (s : str) :
  char_in c (a :: s) = (c =? a) || char_in c s.
Proof. reflexivity. Qed.

Lemma char_in_app (c : N) (s t : str) :
  char_in c (s ++ t) = char_in c s || char_in c t.
Proof. unfold char_in. apply existsb_app. Qed.

Lemma lazy_to_quote_noquote (s g r : str) :
  lazy_to_quote s = Some (g, r) -> char_in dq g = false.
Proof.
  revert g; induction s as [|c s IH]; intros g; cbn [lazy_to_quote]; [done|].
  destruct (N.eqb_spec c dq) as [->|Hc].
  - by intros [= <- <-].
  - destruct (lazy_to_quote s) as [[g' r']|]; cbn [mbind option_bind];
      [|done].
    intros [= <- <-]. rewrite char_in_cons, (IH g' eq_refl), orb_false_r.
    apply N.eqb_neq. congruence.
Qed.

Lemma lazy_to_quote_app (t r : str) :
  char_in dq t = false -> lazy_to_quote (t ++ dq :: r) = Some (t, r).
Proof.
  induction t as [|c t IH]; [done|].
  rewrite char_in_cons. intros [Hc Ht]%orb_false_elim.
  cbn [app lazy_to_quote]. rewrite N.eqb_sym, Hc, (IH Ht). done.
Qed.

Lemma lazy_pair_entry (e t r : str) :
  char_in dq e = false -> char_in dq t = false ->
  lazy_pair (e ++ pair_middle ++ t ++ dq :: r) = Some (e, t, r).
Proof.
  intros He Ht. induction e as [|c e IH].
  - cbn [app].
    assert (exists a x, pair_middle ++ t ++ dq :: r = a :: x) as (a & x & Hx)
      by (unfold pair_middle; cbn [app]; eauto).
    rewrite Hx, lazy_pair_cons, <- Hx, strip_prefix_app.
    cbn [mbind option_bind]. by rewrite (lazy_to_quote_app _ _ Ht).
  - rewrite char_in_cons in He. apply orb_false_elim in He as [Hc He].
    cbn [app]. rewrite lazy_pair_cons.
    assert (strip_prefix pair_middle (c :: e ++ pair_middle ++ t ++ dq :: r)
            = None) as ->.
    { unfold pair_middle. cbn [app strip_prefix]. by rewrite Hc. }
    cbn [mbind option_bind]. by rewrite (IH He).
Qed.

Lemma entry_text_app (e t r : str) :
  entry_text e t ++ r = msgid_open ++ e ++ pair_middle ++ t ++ dq :: r.
Proof. unfold entry_text. by rewrite <- !app_assoc. Qed.

Lemma match_at_entry (e t r : str) :
  char_in dq e = false -> char_in dq t = false ->
  match_at (entry_text e t ++ r) = Some (MkMatch e t, r).
Proof.
  intros He Ht. unfold match_at.
  rewrite entry_text_app, strip_prefix_app. cbn [mbind option_bind].
  by rewrite (lazy_pair_entry _ _ _ He Ht).
Qed.

Lemma lazy_pair_noquote (s g2 g5 r : str) :
  lazy_pair s = Some (g2, g5, r) -> char_in dq g5 = false.
Proof.
  revert g2; induction s as [|c s IH]; intros g2; [done|].
  rewrite lazy_pair_cons.
  destruct (strip_prefix pair_middle (c :: s)) as [s2|];
    cbn [mbind option_bind].
  - destruct (lazy_to_quote s2) as [[g r']|] eqn:Hq.
    + intros [= <- <- <-]. by eapply lazy_to_quote_noquote.
    + destruct (lazy_pair s) as [[[g2' g5'] r']|]; [|done].
      intros [= <- <- <-]. by eapply IH.
  - destruct (lazy_pair s) as [[[g2' g5'] r']|]; [|done].
    intros [= <- <- <-]. by eapply IH.
Qed.

Lemma match_at_noquote (s : str) (m : re_match) (r : str) :
  match_at s = Some (m, r) -> char_in dq (existing_translation m) = false.
Proof.
  unfold match_at.
  destruct (strip_prefix msgid_open s) as [s1|]; [|done].
  cbn [mbind option_bind].
  destruct (lazy_pair s1) as [[[g2 g5] r']|] eqn:Hl; [|done].
  intros [= <- <-]. by eapply lazy_pair_noquote.
Qed.

Lemma match_at_startswith (s : str) (m : re_match) (r : str) :
  match_at s = Some (m, r) -> startswith msgid_open s = true.
Proof.
  unfold match_at, startswith.
  by destruct (strip_prefix msgid_open s).
Qed.

Lemma scan_no_msgid (s : str) :
  str_in msgid_open s = false -> scan s = Plain <$> s.
Proof.
  induction s as [|c s IH]; [done|].
  rewrite str_in_cons. intros [Hc Hs]%orb_false_elim.
  rewrite scan_plain, (IH Hs); [done|].
  destruct (match_at (c :: s)) as [[m r]|] eqn:Hm; [|done].
  apply match_at_startswith in Hm. congruence.
Qed.

Lemma sub_tokens_plain {S : Type} (repl : re_match -> S -> result (str * S))
    (s : str) (st : S) :
  sub_tokens repl (Plain <$> s) st = Ok (s, st).
Proof.
  induction s as [|c s IH]; [done|].
  rewrite fmap_cons. cbn [sub_tokens]. by rewrite IH.
Qed.

Lemma entries_plain (s : str) : entries (Plain <$> s) = [].
Proof. induction s as [|c s IH]; [done|]. by rewrite fmap_cons. Qed.

Lemma finditer_noquote (s : str) :
  Forall (fun m => char_in dq (existing_translation m) = false) (finditer s).
Proof.
  induction s as [|c s Hm IH|s m r Hm Hs IH] using scan_ind.
  - constructor.
  - by rewrite (finditer_plain _ _ Hm).
  - rewrite (finditer_match _ _ _ Hm). constructor; [|done].
    by eapply match_at_noquote.
Qed.

(** X1. No match of the pattern has a double quote in its msgstr group:
    the lazy group ends at the first one.  So neither an inline
    translation of the template nor a translation read from the existing
    catalog ever holds a double quote. *)
Theorem finditer_msgstr_no_quote (s : str) :
  Forall (fun m => char_in dq (existing_translation m) = false) (finditer s).
Proof. apply finditer_noquote. Qed.

(** X2. Reading back what was written: an entry text whose msgid and
    msgstr have no double quote is found as one match with these two
    texts, line feeds inside them included, and the scan goes on behind
    it. *)
Theorem finditer_entry_text (e t rest : str) :
  char_in dq e = false -> char_in dq t = false ->
  finditer (entry_text e t ++ rest) = MkMatch e t :: finditer rest.
Proof.
  intros He Ht. apply finditer_match. by apply match_at_entry.
Qed.

Lemma finditer_entry_text_witness :
  finditer (entry_text (lit "Save") (lit "Enregistrer") ++ [LF])
  = MkMatch (lit "Save") (lit "Enregistrer") :: finditer [LF].
Proof.
  apply (finditer_entry_text (lit "Save") (lit "Enregistrer") [LF]);
    vm_compute; reflexivity.
Defined.

(** X3. A msgstr with a double quote inside is cut there when it is read
    back: the match has the part in front of the quote, and the scan goes
    on with the part behind it. *)
Theorem finditer_entry_text_cut (e t1 t2 rest : str) :
  char_in dq e = false -> char_in dq t1 = false ->
  finditer (entry_text e (t1 ++ dq :: t2) ++ rest)
  = MkMatch e t1 :: finditer (t2 ++ dq :: rest).
Proof.
  intros He Ht. apply finditer_match.
  replace (entry_text e (t1 ++ dq :: t2) ++ rest)
    with (entry_text e t1 ++ (t2 ++ dq :: rest)).
  - by apply match_at_entry.
  - rewrite !entry_text_app. by rewrite <- !app_assoc.
Qed.

Lemma finditer_entry_text_cut_witness :
  finditer (entry_text (lit "Hello") (lit "say " ++ dq :: lit "hi") ++ [LF])
  = MkMatch (lit "Hello") (lit "say ") :: finditer (lit "hi" ++ dq :: [LF]).
Proof.
  apply (finditer_entry_text_cut (lit "Hello") (lit "say ") (lit "hi") [LF]);
    vm_compute; reflexivity.
Defined.

(** X4. A text in which the opening of an entry, msgid blank quote, does
    not occur has no match, and [re.sub] returns it as it is without a
    call of the replacement function. *)
Theorem re_sub_no_msgid {S : Type}
    (repl : re_match -> S -> result (str * S)) (s : str) (st : S) :
  str_in msgid_open s = false ->
  finditer s = [] /\ re_sub repl s st = Ok (s, st).
Proof.
  intros Hs. unfold finditer, re_sub. rewrite (scan_no_msgid _ Hs).
  split; [apply entries_plain|apply sub_tokens_plain].
Qed.

Lemma re_sub_no_msgid_witness :
  finditer (lit "# a comment") = []
  /\ re_sub (fun (m : re_match) (st : unit) => Raise FileNotFoundError)
       (lit "# a comment") tt
     = Ok (lit "# a comment", tt).
Proof.
  apply (re_sub_no_msgid _ (lit "# a comment") tt). vm_compute. reflexivity.
Defined.

(** ** The existing translations: which pair is remembered *)

Lemma remember_other (d : gmap str str) (pair : re_match) (k : str) :
  (english_text pair = k -> existing_translation pair = []) ->
  remember d pair !! k = d !! k.
Proof.
  intros Hk. unfold remember.
  destruct (english_text pair) as [|a e] eqn:He; [done|].
  destruct (existing_translation pair) as [|b t] eqn:Ht; [done|].
  apply lookup_insert_ne. intros <-. by specialize (Hk eq_refl).
Qed.

Lemma foldl_remember_other (ms : list re_match) (d : gmap str str) (k : str) :
  Forall (fun pair => english_text pair = k -> existing_translation pair = [])
    ms ->
  foldl remember d ms !! k = d !! k.
Proof.
  revert d; induction ms as [|m ms IH]; intros d Hall; [done|].
  apply Forall_cons in Hall as [Hm Hall]. cbn [foldl].
  by rewrite (IH _ Hall), (remember_other _ _ _ Hm).
Qed.

Lemma remember_here (d : gmap str str) (pair : re_match) :
  english_text pair <> [] -> existing_translation pair <> [] ->
  remember d pair !! english_text pair = Some (existing_translation pair).
Proof.
  intros He Ht. unfold remember.
  destruct (english_text pair) as [|a e]; [done|].
  destruct (existing_translation pair) as [|b t]; [done|].
  apply lookup_insert_eq.
Qed.

(** X5. Of the pairs of a catalog with the same source text, the last one
    with a translation is remembered: a pair with both texts not empty is
    what the lookup gives unless a later pair of that source text has a
    translation too. *)
Theorem load_pairs_last_wins (existing_content : str) (ms1 ms2 : list re_match)
    (m : re_match) :
  finditer existing_content = ms1 ++ m :: ms2 ->
  english_text m <> [] -> existing_translation m <> [] ->
  Forall (fun pair => english_text pair = english_text m ->
                      existing_translation pair = []) ms2 ->
  load_pairs existing_content !! english_text m
  = Some (existing_translation m).
Proof.
  intros Hms He Ht Hlater. unfold load_pairs.
  rewrite Hms, foldl_app. cbn [foldl].
  rewrite (foldl_remember_other _ _ _ Hlater). by apply remember_here.
Qed.

Lemma load_pairs_last_wins_witness :
  load_pairs (entry_text (lit "Save") (lit "A") ++ [LF]
              ++ entry_text (lit "Save") (lit "B") ++ [LF]
              ++ entry_text (lit "Save") [] ++ [LF])
    !! lit "Save"
  = Some (lit "B").
Proof.
  apply (load_pairs_last_wins _ [MkMatch (lit "Save") (lit "A")]
           [MkMatch (lit "Save") []] (MkMatch (lit "Save") (lit "B"))).
  - vm_compute. reflexivity.
  - done.
  - done.
  - repeat constructor.
Defined.

(** X6. What the lookup gives was read from the catalog: each remembered
    translation belongs to a pair of the catalog with that source text,
    neither of the two texts is empty, and the translation has no double
    quote. *)
Theorem load_pairs_sound (existing_content k c : str) :
  load_pairs existing_content !! k = Some c ->
  MkMatch k c ∈ finditer existing_content
  /\ k <> [] /\ c <> [] /\ char_in dq c = false.
Proof.
  intros H.
  destruct (load_pairs_lookup _ _ _ H) as (pair & Hin & Hk & Hc & ? & ?).
  assert (pair = MkMatch k c) as -> by (destruct pair; cbn in *; congruence).
  repeat split; try done.
  pose proof (finditer_noquote existing_content) as Hall.
  rewrite Forall_forall in Hall. apply (Hall _ Hin).
Qed.

Lemma load_pairs_sound_witness :
  MkMatch (lit "Save") [0x4fdd; 0x5b58] ∈ finditer save_catalog
  /\ lit "Save" <> [] /\ [0x4fdd; 0x5b58] <> []
  /\ char_in dq [0x4fdd; 0x5b58] = false.
Proof.
  apply (load_pairs_sound save_catalog (lit "Save") [0x4fdd; 0x5b58]).
  vm_compute. reflexivity.
Defined.

(** ** The sanitizing of a reply *)

Lemma startswith_single (a c : N) (s : str) :
  startswith [a] (c :: s) = (a =? c).
Proof. unfold startswith. cbn [strip_prefix]. by destruct (a =? c). Qed.

(** Replacing one character by one character works character by
    character. *)
Lemma replace_char (a b : N) (s : str) :
  replace [a] [b] s = (fun c => if a =? c then b else c) <$> s.
Proof.
  unfold replace. induction s as [|c s IH]; [done|].
  rewrite replace_from_cons, startswith_single, fmap_cons.
  cbn [length Nat.sub]. destruct (a =? c); cbn [app]; by rewrite IH.
Qed.

Lemma straighten_steps (c : N) :
  (fun c => if 0x2019 =? c then sq else c)
    ((fun c => if 0x2018 =? c then sq else c)
       ((fun c => if 0x201d =? c then dq else c)
          ((fun c => if 0x201c =? c then dq else c) c)))
  = straighten c.
Proof.
  unfold straighten. cbn beta.
  rewrite (N.eqb_sym c 0x201c), (N.eqb_sym c 0x201d),
    (N.eqb_sym c 0x2018), (N.eqb_sym c 0x2019).
  destruct (N.eqb_spec 0x201c c) as [<-|_]; [done|].
  destruct (N.eqb_spec 0x201d c) as [<-|_]; [done|].
  destruct (N.eqb_spec 0x2018 c) as [<-|_]; [done|].
  cbn [orb]. destruct (N.eqb_spec 0x2019 c) as [<-|_]; done.
Qed.

(** The quotes first, then the two repairs of the line break marker. *)
Lemma sanitize_unfold (s : str) :
  sanitize s
  = replace [space; LF] [LF]
      (replace (backslash :: lit " n") [LF] (straighten <$> s)).
Proof.
  unfold sanitize. rewrite !replace_char, <- !list_fmap_compose.
  do 2 f_equal. apply list_fmap_ext. intros _ c _. apply straighten_steps.
Qed.

(** A character that the quote replacements neither take nor give is
    found in the straightened text where it was. *)
Lemma straighten_eqb (p c : N) :
  p <> dq -> p <> sq -> straighten p = p ->
  (p =? straighten c) = (p =? c).
Proof.
  intros Hdq Hsq Hp. unfold straighten.
  destruct ((c =? 0x201c) || (c =? 0x201d)) eqn:H1.
  - apply orb_true_iff in H1 as [->%N.eqb_eq| ->%N.eqb_eq];
      rewrite (proj2 (N.eqb_neq _ _) Hdq); symmetry; apply N.eqb_neq;
      intros ->; by vm_compute in Hp.
  - destruct ((c =? 0x2018) || (c =? 0x2019)) eqn:H2; [|done].
    apply orb_true_iff in H2 as [->%N.eqb_eq| ->%N.eqb_eq];
      rewrite (proj2 (N.eqb_neq _ _) Hsq); symmetry; apply N.eqb_neq;
      intros ->; by vm_compute in Hp.
Qed.

Lemma strip_prefix_straighten (P s : str) :
  Forall (fun p => p <> dq /\ p <> sq /\ straighten p = p) P ->
  is_Some (strip_prefix P (straighten <$> s)) <-> is_Some (strip_prefix P s).
Proof.
  intros HP. revert s. induction HP as [|p P (Hdq & Hsq & Hp) _ IH]; intros s.
  - cbn [strip_prefix]. split; by eexists.
  - destruct s as [|c s]; [done|]. rewrite fmap_cons. cbn [strip_prefix].
    rewrite (straighten_eqb _ _ Hdq Hsq Hp).
    destruct (p =? c); [apply IH|done].
Qed.

Lemma startswith_straighten (P s : str) :
  Forall (fun p => p <> dq /\ p <> sq /\ straighten p = p) P ->
  startswith P (straighten <$> s) = startswith P s.
Proof.
  intros HP. unfold startswith.
  pose proof (strip_prefix_straighten P s HP) as [H1 H2].
  destruct (strip_prefix P (straighten <$> s)) as [x|],
    (strip_prefix P s) as [y|]; try done.
  - destruct H1 as [? ?]; [by eexists|done].
  - destruct H2 as [? ?]; [by eexists|done].
Qed.

Lemma str_in_straighten (P s : str) :
  Forall (fun p => p <> dq /\ p <> sq /\ straighten p = p) P ->
  str_in P (straighten <$> s) = str_in P s.
Proof.
  intros HP. induction s as [|c s IH].
  - reflexivity.
  - rewrite fmap_cons, !str_in_cons, IH. f_equal.
    apply (startswith_straighten P (c :: s) HP).
Qed.

Lemma marker_chars_plain :
  Forall (fun p => p <> dq /\ p <> sq /\ straighten p = p)
    (backslash :: lit " n")
  /\ Forall (fun p => p <> dq /\ p <> sq /\ straighten p = p) [space; LF].
Proof. split; repeat constructor; done. Qed.

(** What a replacement gives is made of characters of the text and of the
    new text. *)
Lemma replace_from_Forall (P : N -> Prop) (k : nat) (old new s : str) :
  Forall P s -> Forall P new -> Forall P (replace_from k old new s).
Proof.
  intros Hs Hnew. revert k. induction Hs as [|c s Hc Hs IH]; intros k.
  - constructor.
  - cbn [replace_from]. destruct k as [|k]; [|apply IH].
    destruct (startswith old (c :: s)).
    + apply Forall_app. split; [done|apply IH].
    + constructor; [done|apply IH].
Qed.

Lemma straighten_fixed (c : N) : straighten (straighten c) = straighten c.
Proof.
  unfold straighten.
  destruct ((c =? 0x201c) || (c =? 0x201d)) eqn:H1; [done|].
  destruct ((c =? 0x2018) || (c =? 0x2019)) eqn:H2; [done|].
  by rewrite H1, H2.
Qed.

Lemma sanitize_fixed (s : str) :
  Forall (fun c => straighten c = c) (sanitize s).
Proof.
  rewrite sanitize_unfold. unfold replace.
  apply replace_from_Forall; [|by repeat constructor].
  apply replace_from_Forall; [|by repeat constructor].
  apply Forall_fmap, Forall_forall. intros c _. apply straighten_fixed.
Qed.

Lemma char_in_fixed (q : N) (s : str) :
  straighten q <> q -> Forall (fun c => straighten c = c) s ->
  char_in q s = false.
Proof.
  intros Hq. induction 1 as [|c s Hc _ IH]; [done|].
  rewrite char_in_cons, IH, orb_false_r. apply N.eqb_neq. congruence.
Qed.

(** X7. A sanitized reply has none of the four curly quotation marks. *)
Theorem sanitize_no_curly_quote (chinese_text : str) :
  char_in 0x201c (sanitize chinese_text) = false
  /\ char_in 0x201d (sanitize chinese_text) = false
  /\ char_in 0x2018 (sanitize chinese_text) = false
  /\ char_in 0x2019 (sanitize chinese_text) = false.
Proof.
  pose proof (sanitize_fixed chinese_text) as H.
  repeat split; apply char_in_fixed; done.
Qed.

(** X8. On a reply without the text backslash, blank, n and without a
    blank in front of a line feed, sanitizing only straightens the quotes,
    character by character: the two left and right double marks become
    the double quote, the two single marks the single quote, and every
    other character stays, a correct line break marker included. *)
Theorem sanitize_straightens (chinese_text : str) :
  str_in (backslash :: lit " n") chinese_text = false ->
  str_in [space; LF] chinese_text = false ->
  sanitize chinese_text = straighten <$> chinese_text.
Proof.
  intros H1 H2. destruct marker_chars_plain as [P1 P2].
  rewrite sanitize_unfold. unfold replace.
  rewrite (replace_from_absent _ _ (straighten <$> chinese_text));
    [|by rewrite (str_in_straighten _ _ P1)].
  apply replace_from_absent. by rewrite (str_in_straighten _ _ P2).
Qed.

Lemma sanitize_straightens_witness :
  sanitize ([0x201c; 0x4f60; 0x597d; 0x201d] ++ escaped_n ++ lit "ok")
  = straighten <$> ([0x201c; 0x4f60; 0x597d; 0x201d] ++ escaped_n ++ lit "ok").
Proof.
  apply (sanitize_straightens
           ([0x201c; 0x4f60; 0x597d; 0x201d] ++ escaped_n ++ lit "ok"));
    vm_compute; reflexivity.
Defined.

Lemma replace_from_head (old new : str) (c : N) (s : str) :
  startswith old (c :: s) = false ->
  replace_from 0 old new (c :: s) = c :: replace_from 0 old new s.
Proof. intros H. by rewrite replace_from_cons, H. Qed.

(** A reply that opens with the left double mark is sanitized to a text
    that opens with the double quote. *)
Lemma sanitize_opening_quote (t : str) :
  exists x, sanitize (0x201c :: t) = dq :: x.
Proof.
  rewrite sanitize_unfold, fmap_cons. unfold replace.
  change (straighten 0x201c) with dq.
  rewrite replace_from_head by reflexivity.
  rewrite replace_from_head by reflexivity. eauto.
Qed.

(** ** The header patch, applied again *)

Lemma startswith_app_r (p s t : str) :
  startswith p s = true -> startswith p (s ++ t) = true.
Proof.
  unfold startswith.
  destruct (strip_prefix p s) as [r|] eqn:Hp; [|done]. intros _.
  apply strip_prefix_Some in Hp as ->.
  by rewrite <- app_assoc, strip_prefix_app.
Qed.

(** The first place at which a text occurs. *)
Lemma str_in_first (p s : str) :
  p <> [] -> str_in p s = true ->
  exists pre post, s = pre ++ p ++ post /\ str_in p pre = false.
Proof.
  intros Hp. induction s as [|c s IH].
  - destruct p; [done|]. by intros ?.
  - rewrite str_in_cons. destruct (startswith p (c :: s)) eqn:Hc.
    + intros _. unfold startswith in Hc.
      destruct (strip_prefix p (c :: s)) as [post|] eqn:Hs; [|done].
      exists [], post. split; [cbn [app]; by apply strip_prefix_Some|].
      by destruct p.
    + intros Hs. destruct (IH Hs) as (pre & post & -> & Hpre).
      exists (c :: pre), post. split; [done|].
      rewrite str_in_cons, Hpre, orb_false_r.
      destruct (startswith p (c :: pre)) eqn:Hcp; [|done].
      apply (startswith_app_r _ _ (p ++ post)) in Hcp.
      cbn [app] in Hcp. congruence.
Qed.

Lemma str_in_app_r (p a b : str) : str_in p (a ++ p ++ b) = true.
Proof.
  induction a as [|c a IH].
  - cbn [app]. destruct (p ++ b) as [|c x] eqn:Hx.
    + apply app_eq_nil in Hx as [-> ->]. done.
    + rewrite str_in_cons, <- Hx, startswith_app. done.
  - cbn [app]. by rewrite str_in_cons, IH, orb_true_r.
Qed.

Lemma header_replacement_marker :
  header_replacement
  = header_marker
    ++ [LF; dq] ++ [dq] ++ lit "Language: zh_CN" ++ escaped_n ++ [dq].
Proof. reflexivity. Qed.

Lemma header_patch_occurrence (s : str) :
  str_in header_marker s = true ->
  exists pre post,
    s = pre ++ header_marker ++ post
    /\ header_patch s = pre ++ header_replacement ++ header_patch post.
Proof.
  intros Hs. destruct (str_in_first header_marker s) as (pre & post & -> & Hpre);
    [done|done|].
  exists pre, post. split; [done|].
  unfold header_patch. rewrite header_marker_cons in *.
  by apply replace_first; [apply header_marker_one_quote|].
Qed.

Lemma header_patch_length (s : str) :
  (length s <= length (header_patch s))%nat.
Proof.
  remember (length s) as n eqn:Hn. revert s Hn.
  induction n as [n IH] using lt_wf_ind. intros s ->.
  destruct (str_in header_marker s) eqn:Hs.
  - destruct (header_patch_occurrence s Hs) as (pre & post & -> & ->).
    rewrite !length_app.
    assert (length post <= length (header_patch post))%nat.
    { apply (IH (length post)); [|done]. rewrite !length_app.
      change (length header_marker) with 32%nat. lia. }
    change (length header_marker) with 32%nat.
    change (length header_replacement) with 53%nat. lia.
  - unfold header_patch, replace. rewrite header_marker_cons.
    rewrite replace_from_absent; [done|by rewrite <- header_marker_cons].
Qed.

(** X9. The header patch is not made once and for all.  A text with the
    header text in it comes out of the patch at least 21 characters
    longer and with the header text still in it, so the patch applied to
    its own output changes it again. *)
Theorem header_patch_again (s : str) :
  str_in header_marker s = true ->
  (length s + 21 <= length (header_patch s))%nat
  /\ str_in header_marker (header_patch s) = true
  /\ header_patch (header_patch s) <> header_patch s.
Proof.
  intros Hs.
  assert (forall x, str_in header_marker x = true ->
            (length x + 21 <= length (header_patch x))%nat
            /\ str_in header_marker (header_patch x) = true) as Hstep.
  { intros x Hx.
    destruct (header_patch_occurrence x Hx) as (pre & post & -> & ->).
    split.
    - pose proof (header_patch_length post). rewrite !length_app.
      change (length header_marker) with 32%nat.
      change (length header_replacement) with 53%nat. lia.
    - rewrite header_replacement_marker, <- (app_assoc header_marker).
      apply str_in_app_r. }
  destruct (Hstep s Hs) as [Hlen Hin]. split; [done|]. split; [done|].
  intros Heq. destruct (Hstep _ Hin) as [Hlen2 _].
  rewrite Heq in Hlen2. lia.
Qed.

Lemma header_patch_again_witness :
  (length header_with_language + 21
   <= length (header_patch header_with_language))%nat
  /\ str_in header_marker (header_patch header_with_language) = true
  /\ header_patch (header_patch header_with_language)
     <> header_patch header_with_language.
Proof.
  apply (header_patch_again header_with_language). vm_compute. reflexivity.
Defined.

(** ** The classifier and the run, as written *)

Section Run.

Variable isdigit : N -> bool.
Variable translate : nat -> str -> reply.

Lemma should_translate_eq (text : str) :
  should_translate isdigit text
  = if passes text then Ok false else Raise (NameError name_110_left).
Proof.
  unfold should_translate, passes, code_like.
  destruct text as [|c text]; [done|].
  destruct (existsb _ code_signs); [done|]. by rewrite stmt_110_raises.
Qed.

Lemma count_untranslated_raises (E : gmap str str) (ms : list re_match) :
  forallb passes (english_text <$> ms) = false ->
  count_untranslated isdigit E ms = Raise (NameError name_110_left).
Proof.
  induction ms as [|m ms IH]; [done|].
  rewrite fmap_cons. cbn [forallb count_untranslated].
  rewrite should_translate_eq. destruct (passes (english_text m)); [|done].
  cbn [andb]. intros H. rsimpl. by rewrite (IH H).
Qed.

Lemma passes_Forall (ms : list re_match) :
  forallb passes (english_text <$> ms) = true ->
  Forall (fun m => should_translate isdigit (english_text m) = Ok false) ms.
Proof.
  induction ms as [|m ms IH]; [constructor|].
  rewrite fmap_cons. cbn [forallb]. intros [Hm Hms]%andb_prop.
  constructor; [|by apply IH]. by rewrite should_translate_eq, Hm.
Qed.

Lemma translate_po_file_eq (content : str) (output_file : option str) :
  translate_po_file isdigit translate (Some content) output_file
  = if forallb passes (english_text <$> finditer content)
    then Ok (MkReport
               (header_patch
                  (splice (scan content)
                     (resolve (load_existing output_file) <$> finditer content)))
               O O [])
    else Raise (NameError name_110_left).
Proof.
  destruct (forallb passes (english_text <$> finditer content)) eqn:Hp.
  - apply translate_po_file_skip. by apply passes_Forall.
  - unfold translate_po_file. by rewrite (count_untranslated_raises _ _ Hp).
Qed.

(** X10. The classifier as written: it answers false on the empty text and
    on a text with one of the nine code signs, and it raises [NameError]
    on every other text.  It never gets to look at the markup signs, at
    the digits, or to answer true. *)
Theorem should_translate_exact (text : str) :
  should_translate isdigit text
  = match text with
    | [] => Ok false
    | _ :: _ =>
        if existsb (fun c => char_in c (lit "()_{}+=[]")) text then Ok false
        else Raise (NameError name_110_left)
    end.
Proof.
  rewrite should_translate_eq. unfold passes, code_like.
  destruct text as [|a text]; [done|].
  replace (existsb (fun code_sign => str_in code_sign (a :: text)) code_signs)
    with (existsb (fun c => char_in c (lit "()_{}+=[]")) (a :: text)); [done|].
  generalize (a :: text). clear a text. intros s.
  induction s as [|c s IH]; [done|].
  cbn [existsb]. rewrite IH. unfold code_signs.
  cbn [map lit list_ascii_of_string existsb].
  rewrite !str_in_cons, !startswith_single. unfold char_in.
  cbn [existsb map lit list_ascii_of_string].
  rewrite !(N.eqb_sym c).
  repeat match goal with
         | |- context [N_of_ascii ?a =? c] => destruct (N_of_ascii a =? c)
         end; cbn [orb]; try reflexivity;
    repeat (rewrite ?orb_true_r; cbn [orb]); reflexivity.
Qed.

(** X11. A run as written.  When every source text of the template is
    empty or has a code sign, the run returns: it writes the template
    with the header patch and with each entry whose source text is in the
    existing translations rewritten to that translation, it reports no
    work and no translation, and it has sent no request.  When some
    source text is neither, the run raises [NameError] and writes
    nothing. *)
Theorem translate_po_file_exact (content : str) (output_file : option str) :
  translate_po_file isdigit translate (Some content) output_file
  = if forallb passes (english_text <$> finditer content)
    then Ok (MkReport
               (header_patch
                  (splice (scan content)
                     (resolve (load_existing output_file) <$> finditer content)))
               O O [])
    else Raise (NameError name_110_left).
Proof. apply translate_po_file_eq. Qed.

(** X12. A run without an existing output file that returns has changed
    no entry: what it writes is the template with the header patch, and
    it reports no work, no translation and no request. *)
Theorem translate_po_file_first_run (content : str) (r : report) :
  translate_po_file isdigit translate (Some content) None = Ok r ->
  r = MkReport (header_patch content) O O [].
Proof.
  intros H. destruct (translate_po_file_Ok _ _ _ _ _ H) as [_ ->].
  by rewrite splice_resolve_None.
Qed.

(** X13. A reply that the service opens with the left double quotation
    mark is written as a msgstr that opens with a double quote, and the
    pattern reads that entry back with an empty translation: the next run
    will not find it among the existing translations. *)
Theorem curly_reply_reads_empty (e t rest : str) (st : run_state) :
  translate (length (requests st)) e = Translated (0x201c :: t) ->
  char_in dq e = false ->
  exists x,
    (try_translate translate (MkMatch e []) st).1 = entry_text e (dq :: x)
    /\ finditer (entry_text e (dq :: x) ++ rest)
       = MkMatch e [] :: finditer (x ++ dq :: rest).
Proof.
  intros Hr He. destruct (sanitize_opening_quote t) as [x Hx].
  exists x. split.
  - unfold try_translate. cbn [english_text]. by rewrite Hr, Hx.
  - apply finditer_match.
    replace (entry_text e (dq :: x) ++ rest)
      with (entry_text e [] ++ (x ++ dq :: rest)).
    + by apply match_at_entry.
    + by rewrite !entry_text_app.
Qed.

End Run.

(** X14. No run asks the digit table or the translation service: with
    another table and another service the same files give the same
    outcome. *)
Theorem translate_po_file_same (isdigit isdigit' : N -> bool)
    (translate translate' : nat -> str -> reply)
    (input_file output_file : option str) :
  translate_po_file isdigit translate input_file output_file
  = translate_po_file isdigit' translate' input_file output_file.
Proof.
  destruct input_file as [content|]; [|done].
  by rewrite !translate_po_file_eq.
Qed.

Lemma translate_po_file_first_run_witness :
  MkReport (header_patch small_template) O O []
  = MkReport (header_patch small_template) O O [].
Proof.
  apply (translate_po_file_first_run ascii_isdigit service_down small_template
           (MkReport (header_patch small_template) O O [])).
  vm_compute. reflexivity.
Defined.

Lemma curly_reply_reads_empty_witness :
  exists x,
    (try_translate (service_says [0x201c; 0x4f60; 0x597d; 0x201d])
       (MkMatch (lit "Hello") []) (MkState 0 [])).1
    = entry_text (lit "Hello") (dq :: x)
    /\ finditer (entry_text (lit "Hello") (dq :: x) ++ [LF])
       = MkMatch (lit "Hello") [] :: finditer (x ++ dq :: [LF]).
Proof.
  apply (curly_reply_reads_empty
           (service_says [0x201c; 0x4f60; 0x597d; 0x201d])
           (lit "Hello") [0x4f60; 0x597d; 0x201d] [LF] (MkState 0 []));
    vm_compute; reflexivity.
Defined.

(** ** Paths *)

(** A step of the joining ends as its component ends. *)
Lemma last_join_step (path b : str) (c : N) :
  last b = Some c -> last (join_step path b) = Some c.
Proof.
  intros Hb. unfold join_step. destruct (startswith [sep] b); [done|].
  destruct path as [|a path]; [done|].
  destruct (endswith_sep (a :: path)).
  - by rewrite last_app, Hb.
  - by rewrite !last_app, Hb.
Qed.

Lemma last_output_path (module_dir : str) :
  last (output_path_of module_dir) = Some 111.
Proof.
  unfold output_path_of, os_path_join. cbn [foldl].
  by apply last_join_step.
Qed.

Lemma last_pot_path (i18n_dir module_name : str) :
  last (os_path_join i18n_dir [module_name ++ lit ".pot"]) = Some 116.
Proof.
  unfold os_path_join. cbn [foldl]. apply last_join_step.
  by rewrite last_app.
Qed.

Lemma rsplit_no_sep (y : str) :
  char_in sep y = false -> rsplit_sep y = ([], y).
Proof.
  induction y as [|c y IH]; [done|].
  rewrite char_in_cons. intros [Hc Hy]%orb_false_elim.
  cbn [rsplit_sep]. rewrite (IH Hy). by rewrite N.eqb_sym, Hc.
Qed.

Lemma rsplit_sep_app (x y : str) :
  char_in sep y = false -> rsplit_sep (x ++ sep :: y) = (x ++ [sep], y).
Proof.
  intros Hy. induction x as [|c x IH].
  - cbn [app rsplit_sep]. by rewrite (rsplit_no_sep _ Hy).
  - cbn [app rsplit_sep]. rewrite IH. by destruct x.
Qed.

Lemma basename_no_sep (p : str) : char_in sep (basename p) = false.
Proof.
  unfold basename. induction p as [|c p IH]; [done|].
  cbn [rsplit_sep]. destruct (rsplit_sep p) as [head tail].
  destruct head as [|h head]; [|done].
  destruct (N.eqb_spec c sep) as [->|Hc]; [done|].
  cbn [snd] in *. rewrite char_in_cons, IH, orb_false_r.
  apply N.eqb_neq. congruence.
Qed.

(** The directory of [d/y], for a [d] that does not end with the
    separator and a [y] without separator, is [d]. *)
Lemma dirname_app (d0 : str) (c : N) (y : str) :
  c <> sep -> char_in sep y = false ->
  dirname ((d0 ++ [c]) ++ sep :: y) = d0 ++ [c].
Proof.
  intros Hc Hy. unfold dirname. rewrite (rsplit_sep_app _ _ Hy). cbn [fst].
  destruct ((d0 ++ [c]) ++ [sep]) as [|h t] eqn:Hh.
  { by destruct d0. }
  rewrite <- Hh. clear h t Hh.
  assert (forallb (fun c => c =? sep) ((d0 ++ [c]) ++ [sep]) = false) as ->.
  { rewrite !forallb_app. cbn [forallb].
    rewrite (proj2 (N.eqb_neq _ _) Hc). by rewrite !andb_false_r. }
  rewrite !rev_app_distr. cbn [rev app lstrip_sep].
  rewrite N.eqb_refl, (proj2 (N.eqb_neq _ _) Hc).
  cbn [rev]. by rewrite rev_involutive.
Qed.

Lemma join_step_plain (d0 : str) (c : N) (b : str) :
  c <> sep -> startswith [sep] b = false ->
  join_step (d0 ++ [c]) b = (d0 ++ [c]) ++ [sep] ++ b.
Proof.
  intros Hc Hb. unfold join_step. rewrite Hb.
  destruct (d0 ++ [c]) as [|h t] eqn:Hh; [by destruct d0|].
  rewrite <- Hh. unfold endswith_sep.
  by rewrite last_snoc, (proj2 (N.eqb_neq _ _) Hc).
Qed.

Lemma startswith_sep_basename (p b : str) :
  startswith [sep] b = false -> startswith [sep] (basename p ++ b) = false.
Proof.
  intros Hb. pose proof (basename_no_sep p) as Hp.
  destruct (basename p) as [|c t]; [done|].
  rewrite char_in_cons in Hp. apply orb_false_elim in Hp as [Hc _].
  cbn [app]. by rewrite startswith_single.
Qed.

(** ** The discovery and the command *)

Section Modules.

Variable isdigit : N -> bool.
Variable translate : nat -> str -> reply.
Variable glob : str -> list str.
Variable isdir : str -> bool.

Lemma pot_of_Some (path_exists : str -> bool) (manifest_path d p : str) :
  pot_of path_exists manifest_path = Some (d, p) ->
  d = dirname manifest_path
  /\ path_exists (os_path_join d [lit "i18n"]) = true
  /\ p = os_path_join (os_path_join d [lit "i18n"]) [basename d ++ lit ".pot"]
  /\ path_exists p = true.
Proof.
  unfold pot_of.
  destruct (path_exists (os_path_join (dirname manifest_path) [lit "i18n"]))
    eqn:H1; [|done].
  destruct (path_exists (os_path_join _ [basename _ ++ lit ".pot"])) eqn:H2;
    [|done].
  intros [= <- <-]. done.
Qed.

(** What is written is never a template: a template path ends with t, an
    output path with o. *)
Lemma output_path_not_pot (path_exists : str -> bool) (base_dir d p d' : str) :
  (d, p) ∈ find_pot_files glob path_exists base_dir ->
  output_path_of d' <> p.
Proof.
  unfold find_pot_files. rewrite list_elem_of_omap.
  intros (manifest & _ & Hpot) Heq.
  apply pot_of_Some in Hpot as (_ & _ & -> & _).
  pose proof (last_output_path d') as Ho. rewrite Heq, last_pot_path in Ho.
  done.
Qed.

(** The loop writes to the output paths of its modules and to nothing
    else. *)
Lemma translate_all_frame (pot_files : list (str * str))
    (files : gmap str str) (q : str) :
  (forall d p, (d, p) ∈ pot_files -> output_path_of d <> q) ->
  translate_all isdigit translate isdir files pot_files !! q = files !! q.
Proof.
  revert files. induction pot_files as [|[d p] rest IH]; intros files Hq;
    [done|].
  cbn [translate_all].
  destruct (isdir p || isdir (output_path_of d)); [done|].
  destruct (translate_po_file _ _ _ _) as [r|e]; [|done].
  rewrite IH.
  - apply lookup_insert_ne. apply (Hq d p). left.
  - intros d' p' Hin. apply (Hq d' p'). by right.
Qed.

Lemma select_modules_elem (name : option str) (pot_files : list (str * str))
    (dp : str * str) :
  dp ∈ select_modules name pot_files ->
  dp ∈ pot_files.
Proof.
  unfold select_modules. destruct name as [[|c name]|]; try done.
  rewrite list_elem_of_filter. by intros [_ ?].
Qed.

End Modules.

Section Discovered.

Variable isdigit : N -> bool.
Variable translate : nat -> str -> reply.
Variable glob : str -> list str.
Variable isdir : str -> bool.

(** X16. The paths of a module.  For a manifest path [d/__manifest__.py]
    whose [d] does not end with the separator, the module directory is
    [d], the template that is looked for is [d/i18n/name.pot] with [name]
    the last component of [d], it is returned when [d/i18n] and the
    template exist, and the output path is [d/i18n/zh_CN.po]. *)
Theorem module_paths (path_exists : str -> bool) (d0 : str) (c : N) :
  c <> sep ->
  let d := d0 ++ [c] in
  let pot := d ++ lit "/i18n/" ++ basename d ++ lit ".pot" in
  pot_of path_exists (d ++ lit "/__manifest__.py")
  = (if path_exists (d ++ lit "/i18n") && path_exists pot
     then Some (d, pot) else None)
  /\ output_path_of d = d ++ lit "/i18n/zh_CN.po".
Proof.
  intros Hc d pot. subst pot. subst d.
  set (d := d0 ++ [c]).
  assert (os_path_join d [lit "i18n"] = d ++ lit "/i18n") as Hi.
  { unfold os_path_join, d. cbn [foldl]. by rewrite join_step_plain. }
  assert (d ++ lit "/i18n" = (d ++ lit "/i18") ++ [110]) as Hn
    by (by rewrite <- app_assoc).
  assert (forall b, startswith [sep] b = false ->
            join_step (d ++ lit "/i18n") b = d ++ lit "/i18n/" ++ b) as Hj.
  { intros b Hb. rewrite Hn, join_step_plain by done.
    by rewrite <- !app_assoc. }
  split.
  - unfold pot_of.
    change (d ++ lit "/__manifest__.py")
      with ((d0 ++ [c]) ++ sep :: lit "__manifest__.py").
    rewrite (dirname_app _ _ _ Hc) by reflexivity. fold d.
    rewrite Hi. unfold os_path_join. cbn [foldl].
    rewrite Hj by (by apply startswith_sep_basename).
    by destruct (path_exists (d ++ lit "/i18n")),
         (path_exists (d ++ lit "/i18n/" ++ basename d ++ lit ".pot")).
  - unfold output_path_of. unfold os_path_join in *. cbn [foldl] in *.
    rewrite Hi. by rewrite Hj.
Qed.

Lemma module_paths_witness :
  let d := lit "addons/sal" ++ [101] in
  let pot := d ++ lit "/i18n/" ++ basename d ++ lit ".pot" in
  pot_of (fun _ => true) (d ++ lit "/__manifest__.py")
  = (if true && true then Some (d, pot) else None)
  /\ output_path_of d = d ++ lit "/i18n/zh_CN.po".
Proof.
  apply (module_paths (fun _ => true) (lit "addons/sal") 101). done.
Defined.

(** X17. The command writes to the output paths of the modules it found
    and to nothing else: every other path names the same file, or no
    file, as before. *)
Theorem main_frame (a : args) (files : gmap str str) (q : str) :
  (forall d p,
      (d, p) ∈ find_pot_files glob (file_exists isdir files) (dir a) ->
      output_path_of d <> q) ->
  main isdigit translate glob isdir a files !! q = files !! q.
Proof.
  intros Hq. unfold main. apply translate_all_frame.
  intros d p Hin%select_modules_elem. by apply (Hq d p).
Qed.

(** X18. The command never writes to a template that it found. *)
Theorem main_keeps_templates (a : args) (files : gmap str str) (d p : str) :
  (d, p) ∈ find_pot_files glob (file_exists isdir files) (dir a) ->
  main isdigit translate glob isdir a files !! p = files !! p.
Proof.
  intros Hin. unfold main. apply translate_all_frame.
  intros d' p' _. by eapply output_path_not_pot.
Qed.

Lemma translate_all_fails (files : gmap str str) (d p : str)
    (rest : list (str * str)) :
  match files !! p with
  | Some content => forallb passes (english_text <$> finditer content) = false
  | None => True
  end ->
  translate_all isdigit translate isdir files ((d, p) :: rest) = files.
Proof.
  intros Hp. cbn [translate_all].
  destruct (isdir p || isdir (output_path_of d)); [done|].
  destruct (files !! p) as [content|]; [|done].
  by rewrite translate_po_file_eq, Hp.
Qed.

Lemma translate_all_app (files : gmap str str) (l1 l2 : list (str * str)) :
  translate_all isdigit translate isdir files (l1 ++ l2)
  = translate_all isdigit translate isdir files l1
  \/ translate_all isdigit translate isdir files (l1 ++ l2)
     = translate_all isdigit translate isdir
         (translate_all isdigit translate isdir files l1) l2.
Proof.
  revert files. induction l1 as [|[d p] l1 IH]; intros files; [by right|].
  cbn [app translate_all].
  destruct (isdir p || isdir (output_path_of d)); [by left|].
  destruct (translate_po_file _ _ _ _) as [r|e]; [apply IH|by left].
Qed.

(** X19. The loop stops at the first module that fails.  When, with the
    files as the modules in front of it have left them, the template of a
    module is missing or has a source text that is neither empty nor has
    a code sign, that module and all modules behind it are left as they
    are. *)
Theorem translate_all_stops (files : gmap str str)
    (l1 l2 : list (str * str)) (d p : str) :
  match translate_all isdigit translate isdir files l1 !! p with
  | Some content => forallb passes (english_text <$> finditer content) = false
  | None => True
  end ->
  translate_all isdigit translate isdir files (l1 ++ (d, p) :: l2)
  = translate_all isdigit translate isdir files l1.
Proof.
  intros Hp. destruct (translate_all_app files l1 ((d, p) :: l2)) as [->| ->];
    [done|].
  by apply translate_all_fails.
Qed.

(** X20. With a module name that no discovered module directory ends
    with, the command changes no file. *)
Theorem main_module_not_found (base_dir name : str) (files : gmap str str) :
  name <> [] ->
  (forall d p,
      (d, p) ∈ find_pot_files glob (file_exists isdir files) base_dir ->
      basename d <> name) ->
  main isdigit translate glob isdir (MkArgs base_dir (Some name)) files
  = files.
Proof.
  intros Hname Hnone. unfold main. cbn [module dir].
  destruct name as [|c name]; [done|]. cbn [select_modules].
  assert (filter (fun dp : str * str => basename dp.1 = c :: name)
            (find_pot_files glob (file_exists isdir files) base_dir) = [])
    as ->; [|done].
  apply elem_of_nil_inv. intros [d p]. rewrite list_elem_of_filter.
  intros [Hb Hin]. by apply (Hnone d p).
Qed.

End Discovered.

(** ** The discovery and the command on the example file system *)

Lemma find_pot_files_addons :
  find_pot_files glob_addons (file_exists isdir_addons files_addons)
    (lit "addons")
  = [ (lit "addons/stock", lit "addons/stock/i18n/stock.pot");
      (lit "addons/sale", lit "addons/sale/i18n/sale.pot");
      (lit "addons/web", lit "addons/web/i18n/web.pot") ].
Proof. vm_compute. reflexivity. Qed.

Lemma main_frame_witness :
  main ascii_isdigit service_down glob_addons isdir_addons
    (MkArgs (lit "addons") None) files_addons !! lit "addons/README.md"
  = files_addons !! lit "addons/README.md".
Proof.
  apply (main_frame ascii_isdigit service_down glob_addons isdir_addons
           (MkArgs (lit "addons") None) files_addons (lit "addons/README.md")).
  intros d p _ Heq. pose proof (last_output_path d) as H.
  rewrite Heq in H. vm_compute in H. discriminate H.
Defined.

Lemma main_keeps_templates_witness :
  main ascii_isdigit service_down glob_addons isdir_addons
    (MkArgs (lit "addons") None) files_addons
    !! lit "addons/stock/i18n/stock.pot"
  = files_addons !! lit "addons/stock/i18n/stock.pot".
Proof.
  apply (main_keeps_templates ascii_isdigit service_down glob_addons
           isdir_addons (MkArgs (lit "addons") None) files_addons
           (lit "addons/stock") (lit "addons/stock/i18n/stock.pot")).
  cbn [dir]. rewrite find_pot_files_addons. left.
Defined.

(** The module stock is translated, the module sale fails on its entry
    Cancel, and the module web behind it is not looked at. *)
Lemma translate_all_stops_witness :
  translate_all ascii_isdigit service_down isdir_addons files_addons
    ([ (lit "addons/stock", lit "addons/stock/i18n/stock.pot") ]
     ++ (lit "addons/sale", lit "addons/sale/i18n/sale.pot")
        :: [ (lit "addons/web", lit "addons/web/i18n/web.pot") ])
  = translate_all ascii_isdigit service_down isdir_addons files_addons
      [ (lit "addons/stock", lit "addons/stock/i18n/stock.pot") ].
Proof.
  apply (translate_all_stops ascii_isdigit service_down isdir_addons
           files_addons
           [ (lit "addons/stock", lit "addons/stock/i18n/stock.pot") ]
           [ (lit "addons/web", lit "addons/web/i18n/web.pot") ]
           (lit "addons/sale") (lit "addons/sale/i18n/sale.pot")).
  vm_compute. reflexivity.
Defined.

Lemma main_module_not_found_witness :
  main ascii_isdigit service_down glob_addons isdir_addons
    (MkArgs (lit "addons") (Some (lit "purchase"))) files_addons
  = files_addons.
Proof.
  apply (main_module_not_found ascii_isdigit service_down glob_addons
           isdir_addons (lit "addons") (lit "purchase") files_addons).
  - done.
  - intros d p. rewrite find_pot_files_addons.
    rewrite !elem_of_cons, elem_of_nil.
    intros [[= -> _]|[[= -> _]|[[= -> _]|[]]]]; vm_compute; discriminate.
Defined.

(** * The entries and the frame of a run, on the text itself *)

(** The text of an entry, character by character. *)
Lemma entry_text_literal (e t : str) :
  entry_text e t
  = lit "msgid " ++ [dq] ++ e ++ [dq; LF] ++ lit "msgstr " ++ [dq]
    ++ t ++ [dq].
Proof.
  unfold entry_text, msgid_open, pair_middle, msgstr_open.
  by rewrite <- !app_assoc.
Qed.









(** The header patch only puts text in. *)
Lemma header_patch_inserted (s : str) : inserted s (header_patch s).
Proof.
  remember (length s) as n eqn:Hn. revert s Hn.
  induction n as [n IH] using lt_wf_ind. intros s ->.
  destruct (str_in header_marker s) eqn:Hs.
  - destruct (str_in_first header_marker s) as (pre & post & -> & Hpre);
      [done|done|].
    assert (header_patch (pre ++ header_marker ++ post)
            = pre ++ header_replacement ++ header_patch post) as ->.
    { unfold header_patch. rewrite header_marker_cons in *.
      by apply replace_first; [apply header_marker_one_quote|]. }
    rewrite header_replacement_marker, <- (app_assoc header_marker).
    apply inserted_behind; [done|].
    apply (IH (length post)); [|done]. rewrite !length_app.
    change (length header_marker) with 32%nat. lia.
  - assert (header_patch s = s) as ->; [|by apply inserted_none].
    unfold header_patch, replace. rewrite header_marker_cons.
    apply replace_from_absent. by rewrite <- header_marker_cons.
Qed.

Section Written.

Variable isdigit : N -> bool.
Variable translate : nat -> str -> reply.

(** What a run that returns has made of the text it read. *)
Lemma translate_po_file_written (content : str) (output_file : option str)
    (r : report) :
  translate_po_file isdigit translate (Some content) output_file = Ok r ->
  exists reps : list str,
    Forall2
      (fun m rep =>
         exists t,
           rep = lit "msgid " ++ [dq] ++ english_text m ++ [dq; LF]
                 ++ lit "msgstr " ++ [dq] ++ t ++ [dq])
      (finditer content) reps
    /\ inserted (splice (scan content) reps) (written r).
Proof.
  intros H. unfold translate_po_file in H.
  destruct (count_untranslated isdigit _ _) as [n|e]; [|done].
  rsimpl_in H. unfold re_sub in H.
  destruct (sub_tokens _ (scan content) _) as [[out st]|e] eqn:Hsub; [|done].
  rsimpl_in H. injection H as <-.
  destruct (sub_tokens_inv _ _ _ _ _ Hsub) as (reps & Hall & ->).
  exists reps. split; [|apply header_patch_inserted].
  eapply Forall2_impl; [exact Hall|].
  intros m rep (s1 & s2 & Hm).
  destruct (translate_match_msgid _ _ _ _ _ _ _ Hm) as [t ->].
  exists t. apply entry_text_literal.
Qed.

(** C9, amended.  What a run writes is what it read with three changes
    and no other: the line endings are made line feeds on reading and the
    line separator of the platform on writing; each entry is written
    anew, with its msgid line as it was; and the header patch puts text
    behind the occurrences of its header text.  The characters outside
    the entries are neither taken away nor changed. *)
Theorem translate_po_file_io_frame (linesep raw : str)
    (output_file : option str) (r : report) :
  translate_po_file_io isdigit translate linesep (Some raw) output_file
  = Ok r ->
  splice (scan (universal_newlines raw))
    (group0 <$> finditer (universal_newlines raw))
  = universal_newlines raw
  /\ exists (reps : list str) (out : str),
       Forall2
         (fun m rep =>
            exists t,
              rep = lit "msgid " ++ [dq] ++ english_text m ++ [dq; LF]
                    ++ lit "msgstr " ++ [dq] ++ t ++ [dq])
         (finditer (universal_newlines raw)) reps
       /\ inserted (splice (scan (universal_newlines raw)) reps) out
       /\ written r = write_newlines linesep out.
Proof.
  intros H. split; [apply splice_group0|].
  unfold translate_po_file_io in H. cbn [fmap option_fmap option_map] in H.
  destruct (translate_po_file isdigit translate (Some (universal_newlines raw))
              (universal_newlines <$> output_file)) as [r0|e] eqn:Hr; [|done].
  rsimpl_in H. injection H as <-.
  destruct (translate_po_file_written _ _ _ Hr) as (reps & Hall & Hins).
  by exists reps, (written r0).
Qed.


End Written.

(** C6. The language declaration is meant to go on a line of its own
    behind the header line.  As written the replacement is made behind
    the first part of the header line, with a line feed character and a
    doubled quote: the header line of a template as Odoo exports it is
    cut in two, and what is written is not the header line followed by
    the declaration line. *)
Theorem header_patch_splits_header_line :
  header_patch standard_header
  = odoo_head
    ++ [dq] ++ lit "Project-Id-Version: Odoo Server" ++ [LF]
    ++ [dq; dq] ++ lit "Language: zh_CN" ++ escaped_n ++ [dq]
    ++ lit " 17.0" ++ escaped_n ++ [dq; LF]
    ++ standard_header_rest
  /\ header_patch standard_header
     <> odoo_head
        ++ [dq] ++ lit "Project-Id-Version: Odoo Server 17.0" ++ escaped_n
        ++ [dq; LF]
        ++ [dq] ++ lit "Language: zh_CN" ++ escaped_n ++ [dq; LF]
        ++ standard_header_rest.
Proof.
  split; [vm_compute; reflexivity|].
  intros H. vm_compute in H. congruence.
Qed.

(** C9, as stated, fails.  The file has no entry and no header text.
    Where the line separator is the line feed, its carriage return is
    not written again; where it is carriage return and line feed, a
    carriage return is put in front of its line feed. *)
Lemma translate_po_file_io_line_endings :
  finditer (universal_newlines crlf_file) = []
  /\ str_in header_marker (universal_newlines crlf_file) = false
  /\ translate_po_file_io ascii_isdigit service_down [LF]
       (Some crlf_file) None
     = Ok (MkReport lf_file O O [])
  /\ translate_po_file_io ascii_isdigit service_down [CR; LF]
       (Some lf_file) None
     = Ok (MkReport crlf_file O O [])
  /\ lf_file <> crlf_file.
Proof.
  repeat split; try (vm_compute; reflexivity).
  intros H. vm_compute in H. congruence.
Qed.

(** The run on the small template, read from a file with carriage
    returns in front of its line feeds. *)
Lemma translate_po_file_io_frame_small :
  let raw := write_newlines [CR; LF] small_template in
  splice (scan (universal_newlines raw))
    (group0 <$> finditer (universal_newlines raw))
  = universal_newlines raw
  /\ exists (reps : list str) (out : str),
       Forall2
         (fun m rep =>
            exists t,
              rep = lit "msgid " ++ [dq] ++ english_text m ++ [dq; LF]
                    ++ lit "msgstr " ++ [dq] ++ t ++ [dq])
         (finditer (universal_newlines raw)) reps
       /\ inserted (splice (scan (universal_newlines raw)) reps) out
       /\ header_patch small_template = write_newlines [LF] out.
Proof.
  intros raw.
  apply (translate_po_file_io_frame ascii_isdigit service_down [LF] raw None
           (MkReport (header_patch small_template) O O [])).
  vm_compute. reflexivity.
Defined.


